(** * A model of the GTK file manager of [main.c]

    The program is an event-driven shell around GLib, GIO and POSIX
    calls.  This development embeds

    - the C strings the program builds and takes apart
      ([g_build_filename], [g_path_get_dirname], [g_ascii_strcasecmp],
      [g_str_has_suffix]),
    - the file system the program runs against, as a tree of files and
      directories with POSIX path resolution,
    - the widget record [AppWidgets], [refresh_file_list] and the
      signal handlers ([on_row_activated], [on_new_clicked],
      [on_save_clicked], [on_delete_clicked], [on_rename_clicked],
      [on_up_clicked]), each as a function from the state before the
      event to the state after it together with the dialogs shown.

    Library calls are modelled after the GLib/GIO reference manual and
    POSIX; the handlers are transcribed from [main.c].  Permissions,
    symbolic links, concurrent processes and a full disk are outside
    the model.  The limit NAME_MAX on the length of one name is in it;
    the limit PATH_MAX on the length of a whole path is a hypothesis of
    the properties of paths built from a typed name. *)

From Stdlib Require Import Ascii String.
From Stdlib Require Import List Bool Arith ZArith Lia Permutation Sorted.
Import ListNotations.

Set Implicit Arguments.

(** ** C strings *)

(** A C string is the list of its bytes before the terminating NUL. *)
Abbreviation cstr := (list ascii) (only parsing).

Definition cs (s : string) : cstr := list_ascii_of_string s.
Arguments cs s%_string.

Definition cstr_eq_dec : forall a b : cstr, {a = b} + {a <> b} :=
  list_eq_dec ascii_dec.

Definition byte_val (c : ascii) : Z := Z.of_N (N_of_ascii c).

Definition NUL : ascii := zero.

(** [G_DIR_SEPARATOR] on Unix. *)
Definition G_DIR_SEPARATOR : ascii := "/"%char.

Definition G_IS_DIR_SEPARATOR (c : ascii) : bool := Ascii.eqb c G_DIR_SEPARATOR.

(** The string that starts a buffer: the bytes before the first NUL,
    [strlen] of them (a buffer without NUL is followed by its
    terminator). *)
Fixpoint c_str (buf : list ascii) : cstr :=
  match buf with
  | [] => []
  | c :: r => if Ascii.eqb c NUL then [] else c :: c_str r
  end.

(** [g_strcmp0 (a, b) == 0]. *)
Definition g_strcmp0_eq (a b : cstr) : bool :=
  if cstr_eq_dec a b then true else false.

(** [g_str_has_suffix]. *)
Definition g_str_has_suffix (str suffix : cstr) : bool :=
  if Nat.ltb (length str) (length suffix) then false
  else g_strcmp0_eq (skipn (length str - length suffix) str) suffix.

(** [TOLOWER] of gstrfuncs.c: only 'A'..'Z' are folded. *)
Definition TOLOWER (c : ascii) : Z :=
  let v := byte_val c in
  if ((65 <=? v) && (v <=? 90))%Z then (v - 65 + 97)%Z else v.

(** [g_ascii_strcasecmp]: walks both strings while neither has ended,
    returns the difference of the first folded bytes that differ, and
    otherwise the difference of the bytes at which the walk stopped. *)
Fixpoint g_ascii_strcasecmp (s1 s2 : cstr) : Z :=
  match s1, s2 with
  | c1 :: r1, c2 :: r2 =>
      if (TOLOWER c1 =? TOLOWER c2)%Z then g_ascii_strcasecmp r1 r2
      else (TOLOWER c1 - TOLOWER c2)%Z
  | c1 :: _, [] => byte_val c1
  | [], c2 :: _ => (0 - byte_val c2)%Z
  | [], [] => 0%Z
  end.

(** ** Building and splitting paths *)

Fixpoint skip_separators (s : cstr) : cstr :=
  match s with
  | c :: r => if G_IS_DIR_SEPARATOR c then skip_separators r else s
  | [] => []
  end.

Fixpoint leading_separators (s : cstr) : cstr :=
  match s with
  | c :: r => if G_IS_DIR_SEPARATOR c then c :: leading_separators r else []
  | [] => []
  end.

Definition strip_trailing_separators (s : cstr) : cstr :=
  rev (skip_separators (rev s)).

Definition trailing_separators (s : cstr) : cstr :=
  rev (leading_separators (rev s)).

(** The loop state of [g_build_path_va]. *)
Record build_state := {
  result : cstr;
  is_first : bool;
  have_leading : bool;
  single_element : option cstr;
  last_trailing : option cstr
}.

Definition build_init : build_state :=
  {| result := []; is_first := true; have_leading := false;
     single_element := None; last_trailing := None |}.

(** One round of the loop of [g_build_path_va] for [element].
    [start] is the element after its leading separators, [body] is
    [start .. end), and [last_trailing] is the rest of the element from
    the pointer of that name: the trailing separators, or the whole
    element when it consists of separators only. *)
Definition build_step (st : build_state) (element : cstr) : build_state :=
  match element with
  | [] => st
  | _ =>
    let start := skip_separators element in
    let body := strip_trailing_separators start in
    let all_sep := match body with [] => true | _ => false end in
    let trailing := if all_sep then element else trailing_separators element in
    let st1 :=
      if have_leading st
      then {| result := result st; is_first := is_first st;
              have_leading := true; single_element := None;
              last_trailing := Some trailing |}
      else {| result := result st ++ leading_separators element;
              is_first := is_first st; have_leading := true;
              single_element :=
                if all_sep then Some element else single_element st;
              last_trailing := Some trailing |} in
    if all_sep then st1
    else {| result := result st1
                      ++ (if is_first st1 then [] else [G_DIR_SEPARATOR])
                      ++ body;
            is_first := false; have_leading := have_leading st1;
            single_element := single_element st1;
            last_trailing := last_trailing st1 |}
  end.

(** [g_build_filename (e1, ..., en, NULL)] on Unix. *)
Definition g_build_filename (elements : list cstr) : cstr :=
  let st := fold_left build_step elements build_init in
  match single_element st with
  | Some e => e
  | None => result st ++ match last_trailing st with
                         | Some t => t
                         | None => []
                         end
  end.

(** [strrchr]: index of the last occurrence. *)
Fixpoint strrchr (s : cstr) (c : ascii) : option nat :=
  match s with
  | [] => None
  | x :: r =>
      match strrchr r c with
      | Some i => Some (S i)
      | None => if Ascii.eqb x c then Some 0 else None
      end
  end.

(** [while (base > file_name && G_IS_DIR_SEPARATOR ( *base)) base--;] *)
Fixpoint back_over_separators (s : cstr) (base : nat) : nat :=
  match base with
  | 0 => 0
  | S b => if G_IS_DIR_SEPARATOR (nth base s NUL)
           then back_over_separators s b else base
  end.

(** [g_path_get_dirname] on Unix. *)
Definition g_path_get_dirname (file_name : cstr) : cstr :=
  match strrchr file_name G_DIR_SEPARATOR with
  | None => cs "."
  | Some base => firstn (1 + back_over_separators file_name base) file_name
  end.


(** The path as the kernel reads it: its non-empty components. *)
Fixpoint split_separator (s : cstr) : list cstr :=
  match s with
  | [] => [[]]
  | c :: r =>
      if G_IS_DIR_SEPARATOR c then [] :: split_separator r
      else match split_separator r with
           | [] => [[c]]
           | h :: t => (c :: h) :: t
           end
  end.

Definition is_empty (s : cstr) : bool :=
  match s with [] => true | _ => false end.

Definition path_segments (p : cstr) : list cstr :=
  filter (fun s => negb (is_empty s)) (split_separator p).

Definition has_trailing_separator (p : cstr) : bool :=
  G_IS_DIR_SEPARATOR (last p NUL).

Definition g_path_is_absolute (p : cstr) : bool :=
  match p with
  | c :: _ => G_IS_DIR_SEPARATOR c
  | [] => false
  end.

(** ** The file system *)

Inductive errno :=
  | ENOENT | ENOTDIR | EISDIR | EEXIST | ENOTEMPTY | EINVAL | EBUSY
  | EIO | ENOMEM | EOVERFLOW | ENAMETOOLONG.

(** [NAME_MAX] of Linux: the bytes a file name may have. *)
Definition NAME_MAX : nat := 255.

Definition too_long (name : cstr) : bool := Nat.ltb NAME_MAX (length name).

(** [PATH_MAX] of Linux: the bytes a path may have, its terminator
    included.  The calls below do not look at the length of a path;
    where a handler builds a path from what was typed, the properties
    ask that the path be one the kernel takes. *)
Definition PATH_MAX : nat := 4096.

Definition fits_path (path : cstr) : bool := Nat.ltb (length path) PATH_MAX.

(** What the kernel reports for a name that the directory does not
    hold.  (A directory holds no name of more than [NAME_MAX] bytes, so
    the length matters only where the name is not found.) *)
Definition not_found (name : cstr) : errno :=
  if too_long name then ENAMETOOLONG else ENOENT.

(** A regular file carries its modification time, in nanoseconds since
    the epoch, and its bytes; a directory carries its entries in the
    order [readdir] reports them. *)
Unset Elimination Schemes.
Inductive node :=
  | File (mtime : Z) (content : list ascii)
  | Dir (entries : list (cstr * node)).
Set Elimination Schemes.

(** A location is the list of names from the root to a node. *)
Abbreviation loc := (list cstr) (only parsing).

Fixpoint assoc (s : cstr) (es : list (cstr * node)) : option node :=
  match es with
  | [] => None
  | (k, v) :: r => if cstr_eq_dec k s then Some v else assoc s r
  end.

(** Replaces the entry named [s], or adds it at the end.  (Where
    [readdir] reports a new entry is the file system's choice; the end
    is one such place, and what is proved of the names after a creation
    is proved up to their order.) *)
Fixpoint assoc_set (s : cstr) (v : node) (es : list (cstr * node))
  : list (cstr * node) :=
  match es with
  | [] => [(s, v)]
  | (k, x) :: r =>
      if cstr_eq_dec k s then (k, v) :: r else (k, x) :: assoc_set s v r
  end.

Fixpoint assoc_remove (s : cstr) (es : list (cstr * node))
  : list (cstr * node) :=
  match es with
  | [] => []
  | (k, x) :: r =>
      if cstr_eq_dec k s then assoc_remove s r else (k, x) :: assoc_remove s r
  end.

Fixpoint lookup (l : loc) (n : node) : option node :=
  match l with
  | [] => Some n
  | s :: r =>
      match n with
      | Dir es => match assoc s es with
                  | Some c => lookup r c
                  | None => None
                  end
      | File _ _ => None
      end
  end.

Definition is_dir_node (n : node) : bool :=
  match n with Dir _ => true | File _ _ => false end.

Definition is_dir_at (l : loc) (n : node) : bool :=
  match lookup l n with
  | Some c => is_dir_node c
  | None => false
  end.

(** Puts [v] at location [l], whose parent must be a directory. *)
Fixpoint set_node (l : loc) (v : node) (n : node) : option node :=
  match l with
  | [] => None
  | s :: r =>
      match n with
      | File _ _ => None
      | Dir es =>
          match r with
          | [] => Some (Dir (assoc_set s v es))
          | _ :: _ =>
              match assoc s es with
              | Some c =>
                  match set_node r v c with
                  | Some c' => Some (Dir (assoc_set s c' es))
                  | None => None
                  end
              | None => None
              end
          end
      end
  end.

(** Unlinks the node at location [l] (with everything below it). *)
Fixpoint remove_node (l : loc) (n : node) : option node :=
  match l with
  | [] => None
  | s :: r =>
      match n with
      | File _ _ => None
      | Dir es =>
          match r with
          | [] => Some (Dir (assoc_remove s es))
          | _ :: _ =>
              match assoc s es with
              | Some c =>
                  match remove_node r c with
                  | Some c' => Some (Dir (assoc_set s c' es))
                  | None => None
                  end
              | None => None
              end
          end
      end
  end.

Definition dot : cstr := cs ".".
Definition dotdot : cstr := cs "..".

(** Path resolution from the directory [cur]: [.] stays, [..] goes to
    the parent (the root is its own parent), a name must be an entry of
    the directory reached so far.  A regular file may only be the last
    component, and not when the path ends in a separator. *)
Fixpoint path_walk (root : node) (cur : loc) (segs : list cstr)
         (must_dir : bool) : errno + loc :=
  match segs with
  | [] => inr cur
  | s :: rest =>
      if cstr_eq_dec s dot then path_walk root cur rest must_dir
      else if cstr_eq_dec s dotdot
      then path_walk root (removelast cur) rest must_dir
      else match lookup (cur ++ [s]) root with
           | None => inl (not_found s)
           | Some (Dir _) => path_walk root (cur ++ [s]) rest must_dir
           | Some (File _ _) =>
               match rest with
               | [] => if must_dir then inl ENOTDIR else inr (cur ++ [s])
               | _ :: _ => inl ENOTDIR
               end
           end
  end.

(** Resolution of all components but the last, for calls that create
    or replace the last one. *)
Fixpoint walk_parent (root : node) (cur : loc) (segs : list cstr)
  : errno + (loc * cstr) :=
  match segs with
  | [] => inl EEXIST
  | s :: rest =>
      match rest with
      | [] =>
          if cstr_eq_dec s dot then inl EEXIST
          else if cstr_eq_dec s dotdot then inl EEXIST
          else inr (cur, s)
      | _ :: _ =>
          if cstr_eq_dec s dot then walk_parent root cur rest
          else if cstr_eq_dec s dotdot
          then walk_parent root (removelast cur) rest
          else match lookup (cur ++ [s]) root with
               | None => inl (not_found s)
               | Some (Dir _) => walk_parent root (cur ++ [s]) rest
               | Some (File _ _) => inl ENOTDIR
               end
      end
  end.

(** What a handler cannot read off the tree: the addresses the
    allocator hands out (the i-th [g_strdup] of a refresh), the working
    directory of the process, the clock (in nanoseconds since the
    epoch), and a fault the kernel reports for [stat] for reasons
    outside the tree (ENOMEM, EOVERFLOW, EIO). *)
Record Env := {
  heap : nat -> Z;
  cwd : loc;
  now : Z;
  stat_fault : option errno
}.

Definition start_dir (env : Env) (path : cstr) : loc :=
  if g_path_is_absolute path then [] else cwd env.

Definition resolve (env : Env) (fs : node) (path : cstr) : errno + loc :=
  match path with
  | [] => inl ENOENT
  | _ =>
      if is_dir_at (start_dir env path) fs
      then path_walk fs (start_dir env path) (path_segments path)
                     (has_trailing_separator path)
      else inl ENOENT
  end.

Definition resolve_parent (env : Env) (fs : node) (path : cstr)
  : errno + (loc * cstr) :=
  match path with
  | [] => inl ENOENT
  | _ =>
      if is_dir_at (start_dir env path) fs
      then walk_parent fs (start_dir env path) (path_segments path)
      else inl ENOENT
  end.

(** ** GLib, GIO and POSIX calls on the file system *)

Inductive GFileTest := G_FILE_TEST_EXISTS | G_FILE_TEST_IS_DIR.

(** [g_file_test]. *)
Definition g_file_test (env : Env) (fs : node) (path : cstr) (test : GFileTest)
  : bool :=
  match resolve env fs path with
  | inl _ => false
  | inr l =>
      match test with
      | G_FILE_TEST_EXISTS => true
      | G_FILE_TEST_IS_DIR => is_dir_at l fs
      end
  end.

Definition is_dot_entry (name : cstr) : bool :=
  g_strcmp0_eq name dot || g_strcmp0_eq name dotdot.

(** [g_dir_open] followed by [g_dir_read_name] until it returns NULL:
    the names of the directory in directory order; GLib itself leaves
    out [.] and [..]. *)
Definition g_dir_read_names (env : Env) (fs : node) (path : cstr)
  : option (list cstr) :=
  match resolve env fs path with
  | inl _ => None
  | inr l =>
      match lookup l fs with
      | Some (Dir es) =>
          Some (filter (fun n => negb (is_dot_entry n)) (map fst es))
      | _ => None
      end
  end.

(** [g_file_get_contents]: the whole file, with its length. *)
Definition g_file_get_contents (env : Env) (fs : node) (path : cstr)
  : errno + list ascii :=
  match resolve env fs path with
  | inl e => inl e
  | inr l =>
      match lookup l fs with
      | Some (File _ c) => inr c
      | Some (Dir _) => inl EISDIR
      | None => inl ENOENT
      end
  end.

(** The bytes [g_file_set_contents] is asked to write: [length] bytes
    of [contents], or [strlen (contents)] bytes when [length] is -1. *)
Definition written (contents : list ascii) (length : Z) : list ascii :=
  if (length <? 0)%Z then c_str contents
  else firstn (Z.to_nat length) contents.

(** The suffix of the temporary file that [g_file_set_contents] writes
    beside the target ([filename.XXXXXX]) and then renames over it. *)
Definition tmp_suffix : cstr := cs ".XXXXXX".

(** [g_file_set_contents (filename, contents, length, &err)]: the
    bytes become the whole content of the file, which is created when
    missing.  The directory of the file must exist, the name of the
    temporary file must be one the directory can hold, and the name
    must not be that of a directory. *)
Definition g_file_set_contents (env : Env) (fs : node) (filename : cstr)
           (contents : list ascii) (length : Z) : errno + node :=
  let data := written contents length in
  match resolve_parent env fs filename with
  | inl EEXIST => inl EISDIR
  | inl e => inl e
  | inr (p, s) =>
      if has_trailing_separator filename
      then (if is_dir_at (p ++ [s]) fs then inl EISDIR else inl ENOTDIR)
      else if too_long (s ++ tmp_suffix) then inl ENAMETOOLONG
      else if is_dir_at (p ++ [s]) fs then inl EISDIR
      else match set_node (p ++ [s]) (File (now env) data) fs with
           | Some fs' => inr fs'
           | None => inl ENOENT
           end
  end.

Record timespec := { tv_sec : Z; tv_nsec : Z }.

(** The [struct timespec] of a time given in nanoseconds. *)
Definition timespec_of (t : Z) : timespec :=
  {| tv_sec := t / 1000000000; tv_nsec := t mod 1000000000 |}.

Record stat_buf := { st_size : Z; st_mtim : timespec }.

(** [stat].  Only the size and modification time of regular files are
    tracked; for a directory both fields are reported as 0. *)
Definition stat (env : Env) (fs : node) (path : cstr) : errno + stat_buf :=
  match stat_fault env with
  | Some e => inl e
  | None =>
      match resolve env fs path with
      | inl e => inl e
      | inr l =>
          match lookup l fs with
          | Some (File m c) =>
              inr {| st_size := Z.of_nat (List.length c);
                     st_mtim := timespec_of m |}
          | Some (Dir _) => inr {| st_size := 0; st_mtim := timespec_of 0 |}
          | None => inl ENOENT
          end
      end
  end.

(** The walk of [g_mkdir_with_parents] over the components of the path:
    a component that is missing is created, unless its name is longer
    than a directory can hold; one that is a regular file stops the
    walk with ENOTDIR.  Directories made before the walk stops stay.  (GLib first tries to make the whole path in one
    [mkdir]; where that succeeds, or reports an existing directory, the
    walk below leaves the same tree.) *)
Fixpoint mkdir_walk (root : node) (cur : loc) (segs : list cstr)
  : node * option errno :=
  match segs with
  | [] => (root, None)
  | s :: rest =>
      if cstr_eq_dec s dot then mkdir_walk root cur rest
      else if cstr_eq_dec s dotdot then mkdir_walk root (removelast cur) rest
      else match lookup (cur ++ [s]) root with
           | Some (Dir _) => mkdir_walk root (cur ++ [s]) rest
           | Some (File _ _) => (root, Some ENOTDIR)
           | None =>
               if too_long s then (root, Some ENAMETOOLONG)
               else match set_node (cur ++ [s]) (Dir []) root with
                    | Some root' => mkdir_walk root' (cur ++ [s]) rest
                    | None => (root, Some ENOENT)
                    end
           end
  end.

(** [g_mkdir_with_parents (pathname, mode)]: the tree afterwards, and
    the errno when it returns -1. *)
Definition g_mkdir_with_parents (env : Env) (fs : node) (pathname : cstr)
  : node * option errno :=
  match pathname with
  | [] => (fs, Some EINVAL)
  | _ =>
      if is_dir_at (start_dir env pathname) fs
      then mkdir_walk fs (start_dir env pathname) (path_segments pathname)
      else (fs, Some ENOENT)
  end.

Definition last_segment (path : cstr) : cstr :=
  last (path_segments path) [].

(** [g_file_delete (file, cancellable, &err)] on a local file is
    [g_remove]: [unlink] for a file, [rmdir] for a directory.  GIO: `If
    the file is a directory, it will only be deleted if it is empty.'
    The call has no flags argument and GIO has no recursive mode; the
    [G_FILE_COPY_RECURSIVE] that [main.c] passes has no effect here. *)
Definition g_file_delete (env : Env) (fs : node) (path : cstr) : errno + node :=
  match resolve env fs path with
  | inl e => inl e
  | inr l =>
      if g_strcmp0_eq (last_segment path) dot then inl EINVAL
      else if g_strcmp0_eq (last_segment path) dotdot then inl ENOTEMPTY
      else
        match lookup l fs with
        | None => inl ENOENT
        | Some (File _ _) =>
            if has_trailing_separator path then inl ENOTDIR
            else match remove_node l fs with
                 | Some fs' => inr fs'
                 | None => inl EBUSY
                 end
        | Some (Dir []) =>
            match remove_node l fs with
            | Some fs' => inr fs'
            | None => inl EBUSY
            end
        | Some (Dir (_ :: _)) => inl ENOTEMPTY
        end
  end.

Fixpoint is_prefix (a b : loc) : bool :=
  match a, b with
  | [], _ => true
  | x :: a', y :: b' => if cstr_eq_dec x y then is_prefix a' b' else false
  | _ :: _, [] => false
  end.

Definition loc_eqb (a b : loc) : bool :=
  if list_eq_dec cstr_eq_dec a b then true else false.

(** [rename (oldpath, newpath)] of POSIX.  The source is looked up
    first, then the new name, which must be one a directory can
    hold. *)
Definition rename (env : Env) (fs : node) (oldpath newpath : cstr)
  : errno + node :=
  match resolve_parent env fs oldpath, resolve_parent env fs newpath with
  | inl EEXIST, _ => inl EBUSY
  | inl e, _ => inl e
  | _, inl EEXIST => inl EBUSY
  | _, inl e => inl e
  | inr (po, so), inr (pn, sn) =>
      let lo := po ++ [so] in
      let ln := pn ++ [sn] in
      match lookup lo fs with
      | None => inl (not_found so)
      | Some src =>
          if match lookup ln fs with
             | None => too_long sn
             | Some _ => false
             end
          then inl ENAMETOOLONG
          else if negb (is_dir_node src)
             && (has_trailing_separator oldpath
                 || has_trailing_separator newpath)
          then inl ENOTDIR
          else if loc_eqb lo ln then inr fs
          else if is_prefix lo ln then inl EINVAL
          else
            let move :=
              match remove_node lo fs with
              | Some fs1 =>
                  match set_node ln src fs1 with
                  | Some fs2 => inr fs2
                  | None => inl ENOENT
                  end
              | None => inl EBUSY
              end in
            match lookup ln fs with
            | None => move
            | Some (File _ _) =>
                if is_dir_node src then inl ENOTDIR else move
            | Some (Dir []) =>
                if is_dir_node src then move else inl EISDIR
            | Some (Dir (_ :: _)) =>
                if is_dir_node src then inl ENOTEMPTY else inl EISDIR
            end
      end
  end.

(** ** The pointer array and its sort *)

(** A string on the heap, as [g_strdup] returns it: where it lives and
    what it holds. *)
Record gchar_ptr := { address : Z; chars : cstr }.

(** The bytes of a pointer-sized value in memory (LP64, little endian). *)
Fixpoint le_bytes (n : nat) (v : Z) : list ascii :=
  match n with
  | 0 => []
  | S k => ascii_of_N (Z.to_N (v mod 256)) :: le_bytes k (v / 256)
  end.

(** What a function that takes a [const gchar *] reads when it is handed
    the address of a slot of the array instead: the bytes of the pointer
    kept in the slot, up to the first zero byte.  User-space addresses
    are below 2^56, so the read ends inside the slot. *)
Definition slot_chars (p : gchar_ptr) : cstr :=
  c_str (le_bytes 8 (address p)).

Section Sort.
Variable A : Type.
Variable cmp : A -> A -> Z.

(** The merge of GLib's stable sort: the left element goes first
    unless the right one is strictly smaller. *)
Fixpoint merge (l1 l2 : list A) : list A :=
  let fix merge_aux (l2 : list A) : list A :=
    match l1, l2 with
    | [], _ => l2
    | _, [] => l1
    | a1 :: r1, a2 :: r2 =>
        if (cmp a1 a2 <=? 0)%Z then a1 :: merge r1 l2
        else a2 :: merge_aux r2
    end in
  merge_aux l2.

Fixpoint msort_fuel (fuel : nat) (l : list A) : list A :=
  match fuel with
  | 0 => l
  | S f =>
      match l with
      | [] | [_] => l
      | _ =>
          let n1 := Nat.div (length l) 2 in
          merge (msort_fuel f (firstn n1 l)) (msort_fuel f (skipn n1 l))
      end
  end.

Definition msort (l : list A) : list A := msort_fuel (length l) l.

(** [a] may stand before [b]. *)
Definition in_order (a b : A) : Prop := (cmp a b <= 0)%Z.
End Sort.

(** [g_ptr_array_sort (array, compare_func)].  GLib: `the comparison
    function for g_ptr_array_sort() doesn't take the pointers from the
    array as arguments, it takes pointers to the pointers in the
    array.'  A [compare_func] that reads its arguments as strings
    therefore reads the slots. *)
Definition g_ptr_array_sort (compare_func : cstr -> cstr -> Z)
           (pdata : list gchar_ptr) : list gchar_ptr :=
  msort (fun a b => compare_func (slot_chars a) (slot_chars b)) pdata.

(** [g_ptr_array_sort_values (array, compare_func)], which hands the
    comparison function the pointers kept in the array. *)
Definition g_ptr_array_sort_values (compare_func : cstr -> cstr -> Z)
           (pdata : list gchar_ptr) : list gchar_ptr :=
  msort (fun a b => compare_func (chars a) (chars b)) pdata.

(** [g_ptr_array_add (entries, g_strdup (name))] for each name read. *)
Fixpoint strdup_all (env : Env) (i : nat) (names : list cstr)
  : list gchar_ptr :=
  match names with
  | [] => []
  | n :: r => {| address := heap env i; chars := n |} :: strdup_all env (S i) r
  end.

(** ** Widgets *)

Inductive icon := icon_folder | icon_text_x_generic.

(** A row of the list box: the label (also kept as the "entry-name"
    datum of the row) and the icon. *)
Record ListBoxRow := { entry_name : cstr; row_icon : icon }.

(** The text [g_time_val_to_iso8601] makes of a [GTimeVal]: the date
    and time of [sec], with [usec] as the fraction of a second. *)
Inductive time_str := iso8601 (sec usec : Z).

(** [g_time_val_to_iso8601 (&file_stat.st_mtim, NULL)], as [main.c]
    calls it.  The function takes a [GTimeVal *], seconds and
    microseconds as two longs; it is handed the address of a
    [struct timespec], two longs as well, and so reads the nanoseconds
    as microseconds.  GLib returns NULL unless
    [0 <= tv_usec < G_USEC_PER_SEC] (and for seconds beyond what
    [gmtime] converts, which the time of a file does not reach). *)
Definition g_time_val_to_iso8601 (t : timespec) : option time_str :=
  if ((0 <=? tv_nsec t) && (tv_nsec t <? 1000000))%Z
  then Some (iso8601 (tv_sec t) (tv_nsec t))
  else None.

(** The texts the status label takes.  [modified] is what [%s] prints:
    [None] stands for the NULL that glibc prints as [(null)]. *)
Inductive status :=
  | status_none_selected          (* Current File: None Selected *)
  | status_directory_view         (* ... None Selected (Directory View) *)
  | status_metadata (name : cstr) (size : Z) (modified : option time_str)
                                  (* Current File: %s | Size: ... *)
  | status_metadata_unavailable   (* Current File: Metadata unavailable *)
  | status_read_failed.           (* Current File: Read Failed *)

Inductive message :=
  | msg (text : string)
  | msg_os (e : errno)              (* err->message, g_strerror (errno) *)
  | msg_rename_failed (e : errno).  (* Rename failed: %s *)

Inductive dialog :=
  | error_dialog (title : string) (m : message)
  | info_dialog (title : string) (m : message)
  | confirm_dialog (name : cstr).

Definition show_error_dialog (title text : string) : dialog :=
  error_dialog title (msg text).

Definition show_info_dialog (title text : string) : dialog :=
  info_dialog title (msg text).

Definition in_range (lo hi : Z) (c : ascii) : bool :=
  ((lo <=? byte_val c) && (byte_val c <=? hi))%Z.

(** [g_utf8_validate (str, len, NULL)] for the [len] bytes [str]: every
    byte belongs to a well-formed UTF-8 sequence (shortest form, no
    surrogate, nothing above U+10FFFF) and none is NUL. *)
Fixpoint g_utf8_validate (str : list ascii) : bool :=
  match str with
  | [] => true
  | c :: r =>
      if in_range 1 127 c then g_utf8_validate r
      else if in_range 194 223 c then
        match r with
        | c1 :: r1 => in_range 128 191 c1 && g_utf8_validate r1
        | _ => false
        end
      else if in_range 224 239 c then
        match r with
        | c1 :: c2 :: r2 =>
            in_range (if (byte_val c =? 224)%Z then 160 else 128)
                     (if (byte_val c =? 237)%Z then 159 else 191) c1
            && in_range 128 191 c2 && g_utf8_validate r2
        | _ => false
        end
      else if in_range 240 244 c then
        match r with
        | c1 :: c2 :: c3 :: r3 =>
            in_range (if (byte_val c =? 240)%Z then 144 else 128)
                     (if (byte_val c =? 244)%Z then 143 else 191) c1
            && in_range 128 191 c2 && in_range 128 191 c3
            && g_utf8_validate r3
        | _ => false
        end
      else false
  end.

(** A [GtkTextBuffer]: it holds valid UTF-8 and nothing else.
    [gtk_text_buffer_get_text] over the whole buffer gives its text. *)
Record GtkTextBuffer := {
  gtk_text_buffer_get_text : list ascii;
  buffer_valid : g_utf8_validate gtk_text_buffer_get_text = true
}.

Definition empty_buffer : GtkTextBuffer :=
  {| gtk_text_buffer_get_text := []; buffer_valid := eq_refl |}.

(** [gtk_text_buffer_set_text (buf, text, len)] for the [len] bytes
    [text]: the old text is deleted, and the new one inserted if it is
    valid UTF-8; GTK refuses any other text
    ([g_return_if_fail (g_utf8_validate (text, len, NULL))]) and the
    buffer stays empty. *)
Definition gtk_text_buffer_set_text (text : list ascii) : GtkTextBuffer :=
  match bool_dec (g_utf8_validate text) true with
  | left H => {| gtk_text_buffer_get_text := text; buffer_valid := H |}
  | right _ => empty_buffer
  end.

(** [AppWidgets], with each widget reduced to the state the handlers
    read or write.  [entryName] is what [gtk_entry_get_text] returns,
    [None] for NULL; [textbuffer] is the buffer of the text view. *)
Record AppWidgets := {
  listbox : list ListBoxRow;
  selected_row : option nat;
  textbuffer : GtkTextBuffer;
  pathLabel : cstr;
  entryName : option cstr;
  statusLabel : status;
  current_dir : cstr;
  selected_file_path : option cstr
}.

(** The text in the text view. *)
Definition textview (w : AppWidgets) : list ascii :=
  gtk_text_buffer_get_text (textbuffer w).

Definition set_textview (w : AppWidgets) (t : list ascii) : AppWidgets :=
  {| listbox := listbox w; selected_row := selected_row w;
     textbuffer := gtk_text_buffer_set_text t;
     pathLabel := pathLabel w; entryName := entryName w;
     statusLabel := statusLabel w; current_dir := current_dir w;
     selected_file_path := selected_file_path w |}.

Definition set_statusLabel (w : AppWidgets) (s : status) : AppWidgets :=
  {| listbox := listbox w; selected_row := selected_row w;
     textbuffer := textbuffer w; pathLabel := pathLabel w;
     entryName := entryName w; statusLabel := s;
     current_dir := current_dir w;
     selected_file_path := selected_file_path w |}.

Definition set_current_dir (w : AppWidgets) (d : cstr) : AppWidgets :=
  {| listbox := listbox w; selected_row := selected_row w;
     textbuffer := textbuffer w; pathLabel := pathLabel w;
     entryName := entryName w; statusLabel := statusLabel w;
     current_dir := d; selected_file_path := selected_file_path w |}.

Definition set_selected_file_path (w : AppWidgets) (p : option cstr)
  : AppWidgets :=
  {| listbox := listbox w; selected_row := selected_row w;
     textbuffer := textbuffer w; pathLabel := pathLabel w;
     entryName := entryName w; statusLabel := statusLabel w;
     current_dir := current_dir w; selected_file_path := p |}.

Definition gtk_entry_set_text (w : AppWidgets) (t : cstr) : AppWidgets :=
  {| listbox := listbox w; selected_row := selected_row w;
     textbuffer := textbuffer w; pathLabel := pathLabel w;
     entryName := Some t; statusLabel := statusLabel w;
     current_dir := current_dir w;
     selected_file_path := selected_file_path w |}.

Definition gtk_list_box_get_selected_row (w : AppWidgets)
  : option ListBoxRow :=
  match selected_row w with
  | Some i => nth_error (listbox w) i
  | None => None
  end.

(** ** The handlers of main.c *)

Definition make_row (env : Env) (fs : node) (dir : cstr) (e : gchar_ptr)
  : ListBoxRow :=
  let fullpath := g_build_filename [dir; chars e] in
  {| entry_name := chars e;
     row_icon := if g_file_test env fs fullpath G_FILE_TEST_IS_DIR
                 then icon_folder else icon_text_x_generic |}.

Definition refresh_file_list (env : Env) (w : AppWidgets) (fs : node)
  : AppWidgets * list dialog :=
  let cleared :=
    {| listbox := []; selected_row := None; textbuffer := gtk_text_buffer_set_text [];
       pathLabel := current_dir w; entryName := entryName w;
       statusLabel := status_none_selected; current_dir := current_dir w;
       selected_file_path := None |} in
  match g_dir_read_names env fs (current_dir w) with
  | None =>
      (cleared,
       [show_error_dialog "Navigation Error"
          "Cannot open directory: Permission denied or not found."])
  | Some names =>
      let entries :=
        strdup_all env 0
          (filter (fun name => negb (g_strcmp0_eq name dot
                                     || g_strcmp0_eq name dotdot)) names) in
      let sorted := g_ptr_array_sort g_ascii_strcasecmp entries in
      ({| listbox := map (make_row env fs (current_dir w)) sorted;
          selected_row := None; textbuffer := gtk_text_buffer_set_text [];
          pathLabel := current_dir w; entryName := entryName w;
          statusLabel := status_none_selected;
          current_dir := current_dir w; selected_file_path := None |},
       [])
  end.

Definition on_row_activated (env : Env) (w : AppWidgets) (fs : node)
           (row : ListBoxRow) : AppWidgets * list dialog :=
  let name := entry_name row in
  let path := g_build_filename [current_dir w; name] in
  let w1 := set_selected_file_path w (Some path) in
  let (w2, shown) :=
    if g_file_test env fs path G_FILE_TEST_IS_DIR then
      let (w3, shown) := refresh_file_list env (set_current_dir w1 path) fs in
      (set_textview (set_statusLabel w3 status_directory_view) [], shown)
    else
      match g_file_get_contents env fs path with
      | inr contents =>
          let w3 := set_textview w1 contents in
          match stat env fs path with
          | inr st =>
              (set_statusLabel w3
                 (status_metadata name (st_size st)
                    (g_time_val_to_iso8601 (st_mtim st))), [])
          | inl _ => (set_statusLabel w3 status_metadata_unavailable, [])
          end
      | inl e =>
          (set_statusLabel (set_textview w1 []) status_read_failed,
           [error_dialog "File Read Error" (msg_os e)])
      end in
  (set_selected_file_path w2 None, shown).

Definition on_new_clicked (env : Env) (w : AppWidgets) (fs : node)
  : AppWidgets * node * list dialog :=
  match entryName w with
  | None | Some [] =>
      (w, fs, [show_error_dialog "Create Error" "Please enter a name."])
  | Some name =>
      let fullpath := g_build_filename [current_dir w; name] in
      let is_dir := g_str_has_suffix name (cs "/")
                    || g_str_has_suffix name (cs "\") in
      if g_file_test env fs fullpath G_FILE_TEST_EXISTS then
        (w, fs, [show_error_dialog "Create Error"
                   "File or directory already exists."])
      else
        let created :=
          if is_dir then
            match g_mkdir_with_parents env fs fullpath with
            | (fs', Some e) =>
                inl (fs', error_dialog "Create Directory Error" (msg_os e))
            | (fs', None) => inr fs'
            end
          else
            match g_file_set_contents env fs fullpath [] 0 with
            | inl e => inl (fs, error_dialog "Create File Error" (msg_os e))
            | inr fs' => inr fs'
            end in
        match created with
        | inl (fs', d) => (w, fs', [d])
        | inr fs' =>
            let (w1, shown) := refresh_file_list env w fs' in
            (gtk_entry_set_text w1 [], fs',
             shown ++ [show_info_dialog "Success"
                         (if is_dir then "Directory created."
                          else "File created.")])
        end
  end.

Definition on_save_clicked (env : Env) (w : AppWidgets) (fs : node)
  : AppWidgets * node * list dialog :=
  match gtk_list_box_get_selected_row w with
  | None =>
      (w, fs, [show_error_dialog "Save Error" "Please select a file to save."])
  | Some row =>
      let fullpath := g_build_filename [current_dir w; entry_name row] in
      if g_file_test env fs fullpath G_FILE_TEST_IS_DIR then
        (w, fs, [show_error_dialog "Save Error"
                   "Cannot save content to a directory."])
      else
        let text := textview w in
        match g_file_set_contents env fs fullpath text (-1) with
        | inl e => (w, fs, [error_dialog "Save Error" (msg_os e)])
        | inr fs' =>
            let (w1, shown) := on_row_activated env w fs' row in
            (w1, fs',
             show_info_dialog "Success" "File saved (updated)." :: shown)
        end
  end.

(** [response_yes]: the answer to the confirmation dialog was
    [GTK_RESPONSE_YES]. *)
Definition on_delete_clicked (env : Env) (response_yes : bool)
           (w : AppWidgets) (fs : node) : AppWidgets * node * list dialog :=
  match gtk_list_box_get_selected_row w with
  | None => (w, fs, [show_error_dialog "Delete Error" "Please select an item."])
  | Some row =>
      let name := entry_name row in
      let fullpath := g_build_filename [current_dir w; name] in
      if negb response_yes then (w, fs, [confirm_dialog name])
      else
        match g_file_delete env fs fullpath with
        | inl e =>
            (w, fs, [confirm_dialog name; error_dialog "Delete Error" (msg_os e)])
        | inr fs' =>
            let (w1, shown) := refresh_file_list env w fs' in
            (w1, fs',
             confirm_dialog name
               :: shown ++ [show_info_dialog "Success" "Item deleted."])
        end
  end.

Definition on_rename_clicked (env : Env) (w : AppWidgets) (fs : node)
  : AppWidgets * node * list dialog :=
  match entryName w with
  | None | Some [] =>
      (w, fs, [show_error_dialog "Rename Error" "Please enter new name."])
  | Some newName =>
      match gtk_list_box_get_selected_row w with
      | None =>
          (w, fs, [show_error_dialog "Rename Error" "Please select an item."])
      | Some row =>
          let oldpath := g_build_filename [current_dir w; entry_name row] in
          let newpath := g_build_filename [current_dir w; newName] in
          if g_file_test env fs newpath G_FILE_TEST_EXISTS then
            (w, fs, [show_error_dialog "Rename Error"
                       "Item with the new name already exists."])
          else
            match rename env fs oldpath newpath with
            | inl e =>
                (w, fs, [error_dialog "Rename Error" (msg_rename_failed e)])
            | inr fs' =>
                let (w1, shown) := refresh_file_list env w fs' in
                (gtk_entry_set_text w1 [], fs',
                 shown ++ [show_info_dialog "Success" "Item renamed."])
            end
      end
  end.

Definition on_up_clicked (env : Env) (w : AppWidgets) (fs : node)
  : AppWidgets * list dialog :=
  let parent := g_path_get_dirname (current_dir w) in
  if g_strcmp0_eq parent (current_dir w) then (w, [])
  else refresh_file_list env (set_current_dir w parent) fs.

(** ** Auxiliary notions and sample states *)

Definition nul_free (content : list ascii) : Prop :=
  Forall (fun c => c <> NUL) content.

(** A name as a directory entry has it: not empty, no separator. *)
Definition plain_name (name : cstr) : Prop :=
  name <> [] /\ Forall (fun c => G_IS_DIR_SEPARATOR c = false) name.

(** A path as the navigator keeps it: the root, or a path that does not
    end in a separator. *)
Definition navigator_path (p : cstr) : Prop :=
  p = cs "/" \/ (p <> [] /\ has_trailing_separator p = false).

(** Every directory of [n] is a directory of [n']. *)
Definition keeps_dirs (n n' : node) : Prop :=
  forall q, is_dir_at q n = true -> is_dir_at q n' = true.

(** A heap that grows by 32 bytes per string, as a malloc arena does
    for short strings. *)
Definition sample_env : Env :=
  {| heap := fun i => (0x55555576b2a0 + 32 * Z.of_nat i)%Z;
     cwd := [cs "home"];
     now := 1700000000%Z;
     stat_fault := None |}.

(** A heap that hands out descending addresses. *)
Definition downward_env : Env :=
  {| heap := fun i => (0x55555576b2e0 - 32 * Z.of_nat i)%Z;
     cwd := [cs "home"];
     now := 1700000000%Z;
     stat_fault := None |}.


(** /home holds cherry.txt, apple.txt and the directory Banana, read by
    [readdir] in this order; Banana holds one file. *)
Definition sample_fs : node :=
  Dir [(cs "home",
        Dir [(cs "cherry.txt", File 1 (cs "red"));
             (cs "apple.txt", File 2 (cs "green"));
             (cs "Banana", Dir [(cs "peel.txt", File 3 [])])])].

(** The window showing the three rows of /home, with [dir] as current
    directory, row [sel] selected, [name] in the entry and [text] in the
    editor. *)
Definition sample_window (dir : cstr) (sel : option nat) (name : option cstr)
           (text : list ascii) : AppWidgets :=
  {| listbox := [ {| entry_name := cs "cherry.txt";
                     row_icon := icon_text_x_generic |};
                  {| entry_name := cs "apple.txt";
                     row_icon := icon_text_x_generic |};
                  {| entry_name := cs "Banana"; row_icon := icon_folder |} ];
     selected_row := sel;
     textbuffer := gtk_text_buffer_set_text text;
     pathLabel := dir;
     entryName := name;
     statusLabel := status_none_selected;
     current_dir := dir;
     selected_file_path := None |}.

(** Every regular file of [n] is in [n'], with the same bytes and
    modification time. *)
Definition keeps_files (n n' : node) : Prop :=
  forall q m c, lookup q n = Some (File m c) -> lookup q n' = Some (File m c).

(** The state the handlers leave the widgets in: the path label shows
    the current directory and no selected path is kept. *)
Definition settled (w : AppWidgets) : Prop :=
  pathLabel w = current_dir w /\ selected_file_path w = None.




(** * Properties *)

Unset Implicit Arguments.

(** ** Path strings by example *)

Example build_root : g_build_filename [cs "/"; cs "x"] = cs "/x".
Proof. reflexivity. Qed.
Example build_plain : g_build_filename [cs "/a/b"; cs "c.txt"] = cs "/a/b/c.txt".
Proof. reflexivity. Qed.
Example build_trailing : g_build_filename [cs "/a/"; cs "notes/"] = cs "/a/notes/".
Proof. reflexivity. Qed.
Example build_dotdot : g_build_filename [cs "/a"; cs ".."] = cs "/a/..".
Proof. reflexivity. Qed.
Example build_empty : g_build_filename [cs "/a"; cs ""] = cs "/a".
Proof. reflexivity. Qed.
Example build_slashes : g_build_filename [cs "//"; cs "c"] = cs "//c".
Proof. reflexivity. Qed.
Example build_only_sep : g_build_filename [cs "/a"; cs "/"] = cs "/a/".
Proof. reflexivity. Qed.
Example build_keeps_last_separators :
  g_build_filename [cs "//x//"; cs "//y//"; cs "//z//"] = cs "//x/y/z//".
Proof. reflexivity. Qed.
Example build_skips_empty : g_build_filename [cs ""; cs "/x"] = cs "/x".
Proof. reflexivity. Qed.
Example dirname_root : g_path_get_dirname (cs "/") = cs "/".
Proof. reflexivity. Qed.
Example dirname_top : g_path_get_dirname (cs "/a") = cs "/".
Proof. reflexivity. Qed.
Example dirname_deep : g_path_get_dirname (cs "/a/b") = cs "/a".
Proof. reflexivity. Qed.
Example dirname_trailing : g_path_get_dirname (cs "/a/b/") = cs "/a/b".
Proof. reflexivity. Qed.
Example dirname_separators : g_path_get_dirname (cs "////") = cs "/".
Proof. reflexivity. Qed.
Example dirname_dotdot : g_path_get_dirname (cs "../") = cs "..".
Proof. reflexivity. Qed.
Example dirname_empty : g_path_get_dirname (cs "") = cs ".".
Proof. reflexivity. Qed.
Example dirname_rel : g_path_get_dirname (cs "abc") = cs ".".
Proof. reflexivity. Qed.

(** ** Entries of a directory *)

Lemma assoc_set_same (s : cstr) (v : node) (es : list (cstr * node)) :
  assoc s (assoc_set s v es) = Some v.
Proof.
  induction es as [|[k x] r IH]; simpl.
  - destruct (cstr_eq_dec s s); congruence.
  - destruct (cstr_eq_dec k s) as [E|E]; simpl.
    + destruct (cstr_eq_dec k s); congruence.
    + destruct (cstr_eq_dec k s); congruence.
Qed.

Lemma assoc_set_other (s t : cstr) (v : node) (es : list (cstr * node)) :
  s <> t -> assoc s (assoc_set t v es) = assoc s es.
Proof.
  intros D. induction es as [|[k x] r IH]; simpl.
  - destruct (cstr_eq_dec t s); congruence.
  - destruct (cstr_eq_dec k t) as [E|E]; simpl.
    + subst k. destruct (cstr_eq_dec t s); congruence.
    + destruct (cstr_eq_dec k s); congruence.
Qed.

(** ** Locations in the tree *)

Lemma lookup_file (l : loc) (m : Z) (c : list ascii) :
  l <> [] -> lookup l (File m c) = None.
Proof. destruct l; simpl; congruence. Qed.

Lemma is_dir_at_node (q : loc) (n : node) :
  is_dir_at q n = true -> is_dir_node n = true.
Proof.
  unfold is_dir_at. destruct q; simpl.
  - auto.
  - destruct n; simpl; auto; discriminate.
Qed.

Lemma set_node_is_dir (l : loc) (v n n' : node) :
  set_node l v n = Some n' -> is_dir_node n' = true.
Proof.
  destruct l as [|s r]; simpl; [discriminate|].
  destruct n as [m c|es]; [discriminate|].
  destruct r.
  - intros H; inversion H; reflexivity.
  - destruct (assoc s es); [|discriminate].
    destruct (set_node _ _ _); [|discriminate].
    intros H; inversion H; reflexivity.
Qed.

Lemma lookup_set_node_same (l : loc) (v : node) :
  forall n n', set_node l v n = Some n' -> lookup l n' = Some v.
Proof.
  induction l as [|s r IH]; intros n n'; simpl; [discriminate|].
  destruct n as [m c|es]; [discriminate|].
  destruct r as [|t r'].
  - intros H; inversion H; subst; simpl.
    now rewrite assoc_set_same.
  - destruct (assoc s es) as [c|]; [|discriminate].
    destruct (set_node (t :: r') v c) as [c'|] eqn:E; [|discriminate].
    intros H; inversion H; subst. cbn [lookup].
    rewrite assoc_set_same. now apply IH with c.
Qed.

(** Putting a node where no directory was keeps every directory. *)
Lemma set_node_keeps_dirs (l : loc) (v : node) :
  forall n n' q,
    set_node l v n = Some n' ->
    is_dir_at l n = false ->
    is_dir_at q n = true -> is_dir_at q n' = true.
Proof.
  induction l as [|s r IH]; intros n n' q; simpl; [discriminate|].
  destruct n as [m c|es]; [discriminate|].
  destruct q as [|t q'].
  - intros H _ _. unfold is_dir_at; simpl.
    destruct r.
    + inversion H; reflexivity.
    + destruct (assoc s es); [|discriminate].
      destruct (set_node _ _ _); [|discriminate]. inversion H; reflexivity.
  - destruct r as [|u r'].
    + intros H Hl Hq. inversion H; subst; clear H.
      unfold is_dir_at in *. simpl in *.
      destruct (cstr_eq_dec t s) as [E|E].
      * subst t. destruct (assoc s es) as [c|]; [|discriminate].
        assert (is_dir_node c = true) as Hc.
        { apply is_dir_at_node with q'. exact Hq. }
        rewrite Hc in Hl. discriminate.
      * rewrite assoc_set_other by exact E. exact Hq.
    + destruct (assoc s es) as [c|] eqn:Ec; [|discriminate].
      destruct (set_node (u :: r') v c) as [c'|] eqn:E; [|discriminate].
      intros H Hl Hq. inversion H; subst; clear H.
      unfold is_dir_at in *. cbn [lookup] in *.
      destruct (cstr_eq_dec t s) as [Et|Et].
      * subst t. rewrite assoc_set_same. rewrite Ec in Hq, Hl.
        apply (IH c c' q' E Hl Hq).
      * rewrite assoc_set_other by exact Et. exact Hq.
Qed.

Lemma lookup_dir_is_dir_at (l : loc) (n : node) es :
  lookup l n = Some (Dir es) -> is_dir_at l n = true.
Proof. unfold is_dir_at. now intros ->. Qed.

Lemma is_dir_at_lookup (l : loc) (n : node) :
  is_dir_at l n = true -> exists es, lookup l n = Some (Dir es).
Proof.
  unfold is_dir_at. destruct (lookup l n) as [[m c|es]|]; try discriminate.
  eauto.
Qed.

(** ** Path resolution *)

(** In one tree, resolving a path is resolving its parent and then
    looking at the last component. *)
Lemma walk_parent_path_walk (root : node) (must_dir : bool) :
  forall segs cur p s,
    walk_parent root cur segs = inr (p, s) ->
    path_walk root cur segs must_dir =
      match lookup (p ++ [s]) root with
      | None => inl (not_found s)
      | Some (Dir _) => inr (p ++ [s])
      | Some (File _ _) => if must_dir then inl ENOTDIR else inr (p ++ [s])
      end.
Proof.
  induction segs as [|x rest IH]; intros cur p s; simpl; [discriminate|].
  destruct rest as [|y rest'].
  - destruct (cstr_eq_dec x dot); [discriminate|].
    destruct (cstr_eq_dec x dotdot); [discriminate|].
    intros H; inversion H; subst; clear H.
    destruct (lookup (p ++ [s]) root) as [[m c|es]|]; reflexivity.
  - destruct (cstr_eq_dec x dot); [apply IH|].
    destruct (cstr_eq_dec x dotdot); [apply IH|].
    destruct (lookup (cur ++ [x]) root) as [[m c|es]|]; try discriminate.
    apply IH.
Qed.

(** After a change that keeps directories, the parent walk leads to
    the same place. *)
Lemma walk_parent_keeps (n n' : node) :
  keeps_dirs n n' ->
  forall segs cur p s,
    walk_parent n cur segs = inr (p, s) ->
    walk_parent n' cur segs = inr (p, s).
Proof.
  intros K. induction segs as [|x rest IH]; intros cur p s; simpl; [discriminate|].
  destruct rest as [|y rest'].
  - auto.
  - destruct (cstr_eq_dec x dot); [apply IH|].
    destruct (cstr_eq_dec x dotdot); [apply IH|].
    destruct (lookup (cur ++ [x]) n) as [[m c|es]|] eqn:E; try discriminate.
    apply lookup_dir_is_dir_at, K, is_dir_at_lookup in E.
    destruct E as [es' ->]. apply IH.
Qed.

(** ** Writing and reading a file *)

Lemma c_str_no_nul (buf : list ascii) :
  Forall (fun c => c <> NUL) buf -> c_str buf = buf.
Proof.
  induction 1 as [|c r Hc _ IH]; simpl; [reflexivity|].
  destruct (Ascii.eqb_spec c NUL); [contradiction|]. now rewrite IH.
Qed.

Lemma g_file_set_contents_inv env fs filename contents length fs' :
  g_file_set_contents env fs filename contents length = inr fs' ->
  exists p s,
    resolve_parent env fs filename = inr (p, s)
    /\ has_trailing_separator filename = false
    /\ is_dir_at (p ++ [s]) fs = false
    /\ set_node (p ++ [s]) (File (now env) (written contents length)) fs
       = Some fs'.
Proof.
  unfold g_file_set_contents, written.
  destruct (resolve_parent env fs filename) as [e|[p s]].
  - destruct e; discriminate.
  - destruct (has_trailing_separator filename).
    + destruct (is_dir_at (p ++ [s]) fs); discriminate.
    + destruct (too_long (s ++ tmp_suffix)); [discriminate|].
      destruct (is_dir_at (p ++ [s]) fs) eqn:D; [discriminate|].
      destruct (set_node _ _ fs) as [n|] eqn:E; [|discriminate].
      intros H; inversion H; subst. exists p, s. auto.
Qed.

Lemma resolve_parent_inv env fs path p s :
  resolve_parent env fs path = inr (p, s) ->
  path <> []
  /\ is_dir_at (start_dir env path) fs = true
  /\ walk_parent fs (start_dir env path) (path_segments path) = inr (p, s).
Proof.
  unfold resolve_parent. destruct path as [|c r]; [discriminate|].
  destruct (is_dir_at _ fs); [|discriminate]. intros H.
  repeat split; auto. discriminate.
Qed.

Lemma resolve_of_parent env fs path p s :
  resolve_parent env fs path = inr (p, s) ->
  resolve env fs path =
    match lookup (p ++ [s]) fs with
    | None => inl (not_found s)
    | Some (Dir _) => inr (p ++ [s])
    | Some (File _ _) =>
        if has_trailing_separator path then inl ENOTDIR else inr (p ++ [s])
    end.
Proof.
  intros H. apply resolve_parent_inv in H. destruct H as (Hne & Hd & Hw).
  unfold resolve. destruct path as [|c r]; [congruence|].
  rewrite Hd. now apply walk_parent_path_walk.
Qed.

(** The file just written reads back as what was written. *)
Lemma get_after_set env fs filename contents length fs' :
  g_file_set_contents env fs filename contents length = inr fs' ->
  g_file_get_contents env fs' filename = inr (written contents length).
Proof.
  intros H. apply g_file_set_contents_inv in H.
  destruct H as (p & s & Hp & Ht & Hd & Hs).
  assert (keeps_dirs fs fs') as K.
  { intros q. now apply set_node_keeps_dirs with (p ++ [s])
                          (File (now env) (written contents length)). }
  apply resolve_parent_inv in Hp. destruct Hp as (Hne & Hstart & Hw).
  assert (resolve_parent env fs' filename = inr (p, s)) as Hp'.
  { unfold resolve_parent. destruct filename; [congruence|].
    rewrite (K _ Hstart). now apply walk_parent_keeps with fs. }
  unfold g_file_get_contents.
  rewrite (resolve_of_parent _ _ _ _ _ Hp'), (lookup_set_node_same _ _ _ _ Hs), Ht.
  now rewrite (lookup_set_node_same _ _ _ _ Hs).
Qed.

(** ** The text buffer *)

Lemma gtk_text_buffer_get_set (t : list ascii) :
  gtk_text_buffer_get_text (gtk_text_buffer_set_text t)
  = if g_utf8_validate t then t else [].
Proof.
  unfold gtk_text_buffer_set_text.
  destruct (bool_dec (g_utf8_validate t) true) as [H|H].
  - cbn [gtk_text_buffer_get_text]. now rewrite H.
  - cbn [gtk_text_buffer_get_text empty_buffer].
    destruct (g_utf8_validate t); [congruence|reflexivity].
Qed.

(** Reads the fields of a window that the setters have built. *)
Ltac widgets :=
  unfold textview;
  cbn [fst snd listbox selected_row textbuffer pathLabel entryName
       statusLabel current_dir selected_file_path set_textview
       set_statusLabel set_current_dir set_selected_file_path
       gtk_entry_set_text];
  rewrite ?gtk_text_buffer_get_set;
  change (g_utf8_validate []) with true; cbv iota.

Lemma in_range_not_nul (lo hi : Z) (c : ascii) :
  in_range lo hi c = true -> (0 <? lo)%Z = true -> Ascii.eqb c NUL = false.
Proof.
  intros H Hlo. destruct (Ascii.eqb_spec c NUL) as [->|]; [|reflexivity].
  unfold in_range in H. apply andb_prop in H. destruct H as [H _].
  apply Z.leb_le in H. apply Z.ltb_lt in Hlo.
  change (byte_val NUL) with 0%Z in H. lia.
Qed.

Ltac not_nul H :=
  rewrite (in_range_not_nul _ _ _ H)
    by (try match goal with |- context [(?a =? ?b)%Z] =>
              destruct (a =? b)%Z end; reflexivity).

(** Valid UTF-8 holds no NUL: as a C string it is handed over whole. *)
Lemma valid_upto (n : nat) :
  forall t, length t <= n -> g_utf8_validate t = true -> c_str t = t.
Proof.
  induction n as [|n IH]; intros t Hlen Hv.
  - destruct t; [reflexivity|simpl in Hlen; lia].
  - destruct t as [|c r]; [reflexivity|].
    cbn [g_utf8_validate] in Hv. cbn [c_str].
    destruct (in_range 1 127 c) eqn:R1.
    { not_nul R1.
      rewrite IH; [reflexivity|simpl in Hlen; lia|exact Hv]. }
    destruct (in_range 194 223 c) eqn:R2.
    { not_nul R2.
      destruct r as [|c1 r1]; [discriminate|].
      apply andb_prop in Hv. destruct Hv as [H1 Hv]. cbn [c_str].
      not_nul H1.
      rewrite IH; [reflexivity|simpl in Hlen; lia|exact Hv]. }
    destruct (in_range 224 239 c) eqn:R3.
    { not_nul R3.
      destruct r as [|c1 [|c2 r2]]; try discriminate.
      apply andb_prop in Hv. destruct Hv as [Hv Hr].
      apply andb_prop in Hv. destruct Hv as [H1 H2]. cbn [c_str].
      not_nul H1. not_nul H2.
      rewrite IH; [reflexivity|simpl in Hlen; lia|exact Hr]. }
    destruct (in_range 240 244 c) eqn:R4; [|discriminate].
    not_nul R4.
    destruct r as [|c1 [|c2 [|c3 r3]]]; try discriminate.
    apply andb_prop in Hv. destruct Hv as [Hv Hr].
    apply andb_prop in Hv. destruct Hv as [Hv H3].
    apply andb_prop in Hv. destruct Hv as [H1 H2]. cbn [c_str].
    not_nul H1. not_nul H2. not_nul H3.
    rewrite IH; [reflexivity|simpl in Hlen; lia|exact Hr].
Qed.

Lemma valid_c_str (t : list ascii) : g_utf8_validate t = true -> c_str t = t.
Proof. apply (valid_upto (length t)). lia. Qed.

(** What the editor holds is a C string as it stands, and a text that
    the buffer takes again. *)
Lemma textview_valid (w : AppWidgets) : g_utf8_validate (textview w) = true.
Proof. apply buffer_valid. Qed.

Lemma textview_c_str (w : AppWidgets) : c_str (textview w) = textview w.
Proof. apply valid_c_str, textview_valid. Qed.


(** ** Reading a file and its metadata *)

Lemma g_file_get_contents_not_dir env fs path contents :
  g_file_get_contents env fs path = inr contents ->
  g_file_test env fs path G_FILE_TEST_IS_DIR = false.
Proof.
  unfold g_file_get_contents, g_file_test, is_dir_at.
  destruct (resolve env fs path) as [e|l]; [discriminate|].
  destruct (lookup l fs) as [[m c|es]|]; try discriminate. reflexivity.
Qed.



(** ** Names that are refused *)

(** C10. With nothing typed into the name entry (an empty text, or no
    text at all), New and Rename only show their error dialog: widgets,
    current directory and file system are as before, whatever the file
    system holds. *)
Theorem empty_name_refused env w fs :
  entryName w = None \/ entryName w = Some [] ->
  on_new_clicked env w fs
    = (w, fs, [show_error_dialog "Create Error" "Please enter a name."])
  /\ on_rename_clicked env w fs
    = (w, fs, [show_error_dialog "Rename Error" "Please enter new name."]).
Proof.
  unfold on_new_clicked, on_rename_clicked.
  intros [H|H]; rewrite H; split; reflexivity.
Qed.

Lemma empty_name_refused_witness :
  entryName (sample_window (cs "/home") (Some 1) (Some []) []) = Some []
  /\ on_new_clicked sample_env
       (sample_window (cs "/home") (Some 1) (Some []) []) sample_fs
     = (sample_window (cs "/home") (Some 1) (Some []) [], sample_fs,
        [show_error_dialog "Create Error" "Please enter a name."])
  /\ on_rename_clicked sample_env
       (sample_window (cs "/home") (Some 1) (Some []) []) sample_fs
     = (sample_window (cs "/home") (Some 1) (Some []) [], sample_fs,
        [show_error_dialog "Rename Error" "Please enter new name."]).
Proof.
  split; [reflexivity|].
  apply (empty_name_refused sample_env
           (sample_window (cs "/home") (Some 1) (Some []) []) sample_fs).
  right; reflexivity.
Defined.

(** ** Going up *)

(** C5. At the root the parent that [g_path_get_dirname] computes is
    the root itself; Go Up then leaves every widget as it is and shows
    no dialog, and any number of Go Up clicks gives the state that one
    click gives. *)
Theorem up_at_root env w fs :
  current_dir w = cs "/" ->
  g_path_get_dirname (current_dir w) = current_dir w
  /\ on_up_clicked env w fs = (w, [])
  /\ forall n,
       Nat.iter (S n) (fun x => fst (on_up_clicked env x fs)) w
       = fst (on_up_clicked env w fs).
Proof.
  intros H.
  assert (on_up_clicked env w fs = (w, [])) as Hup.
  { unfold on_up_clicked. rewrite H. reflexivity. }
  split; [rewrite H; reflexivity|]. split; [exact Hup|].
  induction n as [|n IH].
  - reflexivity.
  - change (Nat.iter (S (S n)) (fun x => fst (on_up_clicked env x fs)) w)
      with (fst (on_up_clicked env
                   (Nat.iter (S n) (fun x => fst (on_up_clicked env x fs)) w)
                   fs)).
    rewrite IH, Hup. simpl. now rewrite Hup.
Qed.

Lemma up_at_root_witness :
  current_dir (sample_window (cs "/") None None []) = cs "/"
  /\ on_up_clicked sample_env (sample_window (cs "/") None None []) sample_fs
     = (sample_window (cs "/") None None [], [])
  /\ Nat.iter 3 (fun x => fst (on_up_clicked sample_env x sample_fs))
       (sample_window (cs "/") None None [])
     = fst (on_up_clicked sample_env
              (sample_window (cs "/") None None []) sample_fs).
Proof.
  split; [reflexivity|].
  destruct (up_at_root sample_env (sample_window (cs "/") None None [])
              sample_fs) as (_ & Hup & Hit).
  - reflexivity.
  - split; [exact Hup | exact (Hit 2)].
Defined.

(** ** Saving *)



(** Text of more than one byte per character is kept as well. *)
Example write_then_read_two_bytes :
  exists fs',
    g_file_set_contents sample_env sample_fs (cs "/home/apple.txt")
      (gtk_text_buffer_get_text
         (gtk_text_buffer_set_text
            [ascii_of_nat 195; ascii_of_nat 169; "t"%char; ascii_of_nat 195;
             ascii_of_nat 169]))
      (-1) = inr fs'
    /\ g_file_get_contents sample_env fs' (cs "/home/apple.txt")
       = inr [ascii_of_nat 195; ascii_of_nat 169; "t"%char; ascii_of_nat 195;
              ascii_of_nat 169].
Proof. eexists. split; reflexivity. Qed.

(** What a text buffer refuses: the bytes a, NUL, b, and a byte that
    starts no UTF-8 sequence; the buffer is left empty. *)
Example gtk_text_buffer_refuses :
  gtk_text_buffer_get_text
    (gtk_text_buffer_set_text ["a"%char; NUL; "b"%char]) = []
  /\ gtk_text_buffer_get_text
       (gtk_text_buffer_set_text [ascii_of_nat 255; "b"%char]) = [].
Proof. split; reflexivity. Qed.

(** C7. With a row selected, Save on a directory shows `Cannot save
    content to a directory.' and changes nothing, the test being made
    before any write; and when Save reports success, the file holds the
    text of the editor (up to its terminator) and nothing else,
    whatever it held before, and the editor shows that text again. *)
Theorem save_replaces_content env w fs row :
  gtk_list_box_get_selected_row w = Some row ->
  (g_file_test env fs (g_build_filename [current_dir w; entry_name row])
               G_FILE_TEST_IS_DIR = true ->
   on_save_clicked env w fs
     = (w, fs, [show_error_dialog "Save Error"
                  "Cannot save content to a directory."]))
  /\ (forall w' fs' shown,
        on_save_clicked env w fs
          = (w', fs',
             show_info_dialog "Success" "File saved (updated)." :: shown) ->
        g_file_get_contents env fs'
          (g_build_filename [current_dir w; entry_name row])
          = inr (c_str (textview w))
        /\ textview w' = c_str (textview w)
        /\ (nul_free (textview w) -> textview w' = textview w)).
Proof.
  intros Hrow. unfold on_save_clicked. rewrite Hrow.
  set (fullpath := g_build_filename [current_dir w; entry_name row]).
  split.
  - intros ->. reflexivity.
  - intros w' fs' shown.
    destruct (g_file_test env fs fullpath G_FILE_TEST_IS_DIR);
      [discriminate|].
    destruct (g_file_set_contents env fs fullpath (textview w) (-1))
      as [e|fs1] eqn:Hset; [discriminate|].
    pose proof (get_after_set _ _ _ _ _ _ Hset) as Hget.
    change (written (textview w) (-1)) with (c_str (textview w)) in Hget.
    destruct (on_row_activated env w fs1 row) as [w1 shown1] eqn:Hact.
    intros H; inversion H; subst; clear H.
    split; [exact Hget|].
    assert (textview w' = c_str (textview w)) as Htv.
    { revert Hact. unfold on_row_activated. fold fullpath.
      rewrite (g_file_get_contents_not_dir _ _ _ _ Hget), Hget.
      destruct (stat env fs' fullpath); intros H; inversion H; subst;
        rewrite textview_c_str; widgets;
        now rewrite (buffer_valid (textbuffer w)). }
    split; [exact Htv|].
    intros Hnul. rewrite Htv. now apply c_str_no_nul.
Qed.

Lemma save_replaces_content_witness :
  (on_save_clicked sample_env
     (sample_window (cs "/home") (Some 2) None (cs "hello")) sample_fs
   = (sample_window (cs "/home") (Some 2) None (cs "hello"), sample_fs,
      [show_error_dialog "Save Error" "Cannot save content to a directory."]))
  /\ (exists w' fs' shown,
        on_save_clicked sample_env
          (sample_window (cs "/home") (Some 0) None (cs "hello")) sample_fs
        = (w', fs',
           show_info_dialog "Success" "File saved (updated)." :: shown)
        /\ g_file_get_contents sample_env sample_fs (cs "/home/cherry.txt")
           = inr (cs "red")
        /\ g_file_get_contents sample_env fs' (cs "/home/cherry.txt")
           = inr (cs "hello")
        /\ textview w' = cs "hello").
Proof.
  split.
  - apply (save_replaces_content sample_env
             (sample_window (cs "/home") (Some 2) None (cs "hello")) sample_fs
             {| entry_name := cs "Banana"; row_icon := icon_folder |});
      reflexivity.
  - do 3 eexists. split; [reflexivity|]. split; [reflexivity|].
    destruct (save_replaces_content sample_env
                (sample_window (cs "/home") (Some 0) None (cs "hello"))
                sample_fs
                {| entry_name := cs "cherry.txt";
                   row_icon := icon_text_x_generic |} eq_refl)
      as [_ Hok].
    destruct (Hok _ _ _ eq_refl) as (Hget & Htv & _).
    split; [exact Hget | exact Htv].
Defined.

(** ** Joining and splitting path strings *)

Lemma skip_separators_head (c : ascii) (r : cstr) :
  G_IS_DIR_SEPARATOR c = false -> skip_separators (c :: r) = c :: r.
Proof. simpl. now intros ->. Qed.

Lemma leading_separators_head (c : ascii) (r : cstr) :
  G_IS_DIR_SEPARATOR c = false -> leading_separators (c :: r) = [].
Proof. simpl. now intros ->. Qed.

Lemma leading_skip (s : cstr) :
  leading_separators s ++ skip_separators s = s.
Proof.
  induction s as [|c r IH]; simpl; [reflexivity|].
  destruct (G_IS_DIR_SEPARATOR c); simpl; [now rewrite IH | reflexivity].
Qed.

Lemma last_rev_head (s : cstr) (d : ascii) :
  s <> [] -> exists r, rev s = last s d :: r.
Proof.
  intros H. destruct (exists_last H) as (l & a & ->).
  rewrite rev_app_distr, last_last. simpl. eauto.
Qed.

(** A string that does not end in a separator has no trailing
    separators to strip. *)
Lemma strip_trailing_none (s : cstr) :
  has_trailing_separator s = false -> strip_trailing_separators s = s.
Proof.
  unfold has_trailing_separator, strip_trailing_separators. intros H.
  destruct s as [|c r]; [reflexivity|].
  destruct (last_rev_head (c :: r) NUL) as [t Ht]; [discriminate|].
  rewrite Ht, skip_separators_head by exact H. rewrite <- Ht.
  apply rev_involutive.
Qed.

Lemma trailing_none (s : cstr) :
  has_trailing_separator s = false -> trailing_separators s = [].
Proof.
  unfold has_trailing_separator, trailing_separators. intros H.
  destruct s as [|c r]; [reflexivity|].
  destruct (last_rev_head (c :: r) NUL) as [t Ht]; [discriminate|].
  now rewrite Ht, leading_separators_head.
Qed.

Lemma skip_separators_last (s : cstr) :
  s <> [] -> has_trailing_separator s = false ->
  skip_separators s <> []
  /\ has_trailing_separator (skip_separators s) = false.
Proof.
  unfold has_trailing_separator.
  induction s as [|c r IH]; intros Hne Hl; [congruence|].
  simpl skip_separators. destruct (G_IS_DIR_SEPARATOR c) eqn:Ec.
  - destruct r as [|c' r'].
    + simpl in Hl. congruence.
    + apply IH; [discriminate|exact Hl].
  - split; [discriminate|exact Hl].
Qed.

Lemma plain_name_no_trailing (name : cstr) :
  plain_name name -> has_trailing_separator name = false.
Proof.
  intros [Hne Hall]. unfold has_trailing_separator.
  destruct (exists_last Hne) as (l & a & ->). rewrite last_last.
  apply Forall_app in Hall. destruct Hall as [_ Ha].
  now inversion Ha.
Qed.

Lemma plain_name_head (name : cstr) :
  plain_name name ->
  exists c r, name = c :: r /\ G_IS_DIR_SEPARATOR c = false.
Proof.
  intros [Hne Hall]. destruct name as [|c r]; [congruence|].
  exists c, r. split; [reflexivity|]. now inversion Hall.
Qed.

(** The second round of [g_build_filename] for a plain name: one
    separator and the name are appended. *)
Lemma build_step_plain_name (st : build_state) (name : cstr) :
  plain_name name ->
  have_leading st = true ->
  build_step st name =
    {| result := result st
                 ++ (if is_first st then [] else [G_DIR_SEPARATOR]) ++ name;
       is_first := false; have_leading := true;
       single_element := None; last_trailing := Some [] |}.
Proof.
  intros Hp Hl. pose proof (plain_name_no_trailing _ Hp) as Ht.
  destruct (plain_name_head _ Hp) as (c & r & -> & Hc).
  unfold build_step. rewrite Hl.
  rewrite (skip_separators_head _ _ Hc), (strip_trailing_none _ Ht).
  rewrite (trailing_none _ Ht). reflexivity.
Qed.

(** The first round for a path that does not end in a separator: the
    path is copied as it is. *)
Lemma build_step_first (p : cstr) :
  p <> [] -> has_trailing_separator p = false ->
  build_step build_init p =
    {| result := p; is_first := false; have_leading := true;
       single_element := None; last_trailing := Some [] |}.
Proof.
  intros Hne Ht. destruct (skip_separators_last _ Hne Ht) as [Hs Hst].
  unfold build_step. destruct p as [|c r] eqn:Ep; [congruence|].
  rewrite <- Ep in *. rewrite (strip_trailing_none _ Hst).
  destruct (skip_separators p) as [|x y] eqn:Es; [congruence|].
  rewrite (trailing_none _ Ht). cbn. rewrite <- Es.
  now rewrite leading_skip.
Qed.

(** Joining a navigator path and a plain name is concatenation, with
    one separator in between unless the path is the root. *)
Lemma g_build_filename_navigator (p name : cstr) :
  navigator_path p -> plain_name name ->
  g_build_filename [p; name] =
    if cstr_eq_dec p (cs "/") then p ++ name
    else p ++ [G_DIR_SEPARATOR] ++ name.
Proof.
  intros [->|[Hne Ht]] Hn.
  - unfold g_build_filename. cbn [fold_left].
    rewrite build_step_plain_name by (exact Hn || reflexivity).
    cbn. now rewrite app_nil_r.
  - destruct (cstr_eq_dec p (cs "/")) as [->|_]; [discriminate Ht|].
    unfold g_build_filename. cbn [fold_left].
    rewrite (build_step_first _ Hne Ht).
    rewrite build_step_plain_name by (exact Hn || reflexivity).
    cbn. now rewrite app_nil_r.
Qed.

Lemma strrchr_none (s : cstr) (c : ascii) :
  Forall (fun x => Ascii.eqb x c = false) s -> strrchr s c = None.
Proof.
  induction 1 as [|x r Hx _ IH]; simpl; [reflexivity|].
  now rewrite IH, Hx.
Qed.

Lemma strrchr_app (p s : cstr) (c : ascii) :
  Forall (fun x => Ascii.eqb x c = false) s ->
  strrchr (p ++ c :: s) c = Some (length p).
Proof.
  intros H. induction p as [|x r IH]; simpl.
  - now rewrite (strrchr_none _ _ H), Ascii.eqb_refl.
  - now rewrite IH.
Qed.

Lemma nth_last_of_prefix (p r : cstr) (d : ascii) :
  p <> [] -> nth (length p - 1) (p ++ r) d = last p d.
Proof.
  induction p as [|x p' IH]; intros H; [congruence|].
  destruct p' as [|y p'']; [reflexivity|].
  replace (length (x :: y :: p'') - 1) with (S (length (y :: p'') - 1))
    by (simpl; lia).
  change (last (x :: y :: p'') d) with (last (y :: p'') d).
  rewrite <- IH by discriminate. reflexivity.
Qed.

(** The parent of [p/name] is [p]. *)
Lemma g_path_get_dirname_join (p name : cstr) :
  p <> [] -> has_trailing_separator p = false -> plain_name name ->
  g_path_get_dirname (p ++ [G_DIR_SEPARATOR] ++ name) = p.
Proof.
  intros Hne Ht [_ Hn]. unfold g_path_get_dirname.
  cbn [app]. rewrite (strrchr_app _ _ _ Hn).
  destruct (length p) as [|b] eqn:El.
  { destruct p; [congruence|discriminate]. }
  cbn [back_over_separators].
  assert (nth (S b) (p ++ G_DIR_SEPARATOR :: name) NUL = G_DIR_SEPARATOR) as E1.
  { rewrite <- El, app_nth2, Nat.sub_diag by lia. reflexivity. }
  rewrite E1. change (G_IS_DIR_SEPARATOR G_DIR_SEPARATOR) with true.
  cbv iota.
  assert (back_over_separators (p ++ G_DIR_SEPARATOR :: name) b = b) as E2.
  { destruct b as [|b']; [reflexivity|]. cbn [back_over_separators].
    replace (S b') with (length p - 1) by lia.
    rewrite nth_last_of_prefix by exact Hne.
    unfold has_trailing_separator in Ht. now rewrite Ht. }
  rewrite E2. change (1 + b) with (S b). rewrite <- El.
  rewrite firstn_app, Nat.sub_diag, firstn_all. cbn. apply app_nil_r.
Qed.

Lemma g_path_get_dirname_top (name : cstr) :
  plain_name name -> g_path_get_dirname (cs "/" ++ name) = cs "/".
Proof.
  intros [_ Hn]. unfold g_path_get_dirname.
  change (cs "/" ++ name) with ([] ++ G_DIR_SEPARATOR :: name).
  rewrite (strrchr_app _ _ _ Hn). reflexivity.
Qed.

(** Joining and then taking the parent gives the path back. *)
Lemma dirname_of_build (p name : cstr) :
  navigator_path p -> plain_name name ->
  g_path_get_dirname (g_build_filename [p; name]) = p.
Proof.
  intros Hp Hn. rewrite (g_build_filename_navigator _ _ Hp Hn).
  destruct (cstr_eq_dec p (cs "/")) as [->|D].
  - now apply g_path_get_dirname_top.
  - destruct Hp as [->|[Hne Ht]]; [congruence|].
    now apply g_path_get_dirname_join.
Qed.

(** ** Going down and up again *)

Lemma refresh_file_list_current_dir env w fs :
  current_dir (fst (refresh_file_list env w fs)) = current_dir w.
Proof.
  unfold refresh_file_list.
  destruct (g_dir_read_names env fs (current_dir w)); reflexivity.
Qed.

Lemma on_row_activated_descends env w fs row :
  g_file_test env fs (g_build_filename [current_dir w; entry_name row])
              G_FILE_TEST_IS_DIR = true ->
  current_dir (fst (on_row_activated env w fs row))
  = g_build_filename [current_dir w; entry_name row].
Proof.
  intros H. unfold on_row_activated. rewrite H.
  pose proof (refresh_file_list_current_dir env
                (set_current_dir
                   (set_selected_file_path w
                      (Some (g_build_filename [current_dir w; entry_name row])))
                   (g_build_filename [current_dir w; entry_name row])) fs) as R.
  destruct (refresh_file_list env _ fs) as [w3 shown]. exact R.
Qed.

Lemma on_up_clicked_current_dir env w fs :
  current_dir (fst (on_up_clicked env w fs))
  = g_path_get_dirname (current_dir w).
Proof.
  unfold on_up_clicked, g_strcmp0_eq.
  destruct (cstr_eq_dec (g_path_get_dirname (current_dir w)) (current_dir w))
    as [E|_].
  - simpl. now rewrite E.
  - now rewrite refresh_file_list_current_dir.
Qed.

(** C6, as amended. From a current directory that is the root or does
    not end in a separator, activating the row of a directory named by
    a plain name (which may be [.] or [..]: nothing is normalised)
    makes the current directory the old one, one separator unless the
    old one is the root, and the name; Go Up from there gives exactly
    the old current directory. *)
Theorem descend_then_up env w fs row :
  navigator_path (current_dir w) ->
  plain_name (entry_name row) ->
  g_file_test env fs (g_build_filename [current_dir w; entry_name row])
              G_FILE_TEST_IS_DIR = true ->
  current_dir (fst (on_row_activated env w fs row))
  = (if cstr_eq_dec (current_dir w) (cs "/")
     then current_dir w ++ entry_name row
     else current_dir w ++ [G_DIR_SEPARATOR] ++ entry_name row)
  /\ current_dir
       (fst (on_up_clicked env (fst (on_row_activated env w fs row)) fs))
     = current_dir w.
Proof.
  intros Hp Hn Hd. split.
  - rewrite (on_row_activated_descends _ _ _ _ Hd).
    now apply g_build_filename_navigator.
  - rewrite on_up_clicked_current_dir, (on_row_activated_descends _ _ _ _ Hd).
    now apply dirname_of_build.
Qed.

Lemma descend_then_up_witness :
  navigator_path (cs "/home")
  /\ plain_name (cs "Banana")
  /\ current_dir
       (fst (on_row_activated sample_env
               (sample_window (cs "/home") None None []) sample_fs
               {| entry_name := cs "Banana"; row_icon := icon_folder |}))
     = cs "/home/Banana"
  /\ current_dir
       (fst (on_up_clicked sample_env
               (fst (on_row_activated sample_env
                       (sample_window (cs "/home") None None []) sample_fs
                       {| entry_name := cs "Banana";
                          row_icon := icon_folder |}))
               sample_fs))
     = cs "/home".
Proof.
  assert (navigator_path (cs "/home")) as Hp.
  { right. split; [discriminate|reflexivity]. }
  assert (plain_name (cs "Banana")) as Hn.
  { split; [discriminate|]. repeat constructor. }
  split; [exact Hp|]. split; [exact Hn|].
  apply (descend_then_up sample_env
           (sample_window (cs "/home") None None []) sample_fs
           {| entry_name := cs "Banana"; row_icon := icon_folder |} Hp Hn).
  reflexivity.
Defined.

(** C6, as stated, fails for a current directory written with a
    trailing separator: from /home/ the row Banana leads to
    /home/Banana, and Go Up from there to /home, which is not the
    string the navigator started from. *)
Lemma descend_then_up_counterexample :
  g_file_test sample_env sample_fs
    (g_build_filename [cs "/home/"; cs "Banana"]) G_FILE_TEST_IS_DIR = true
  /\ current_dir
       (fst (on_row_activated sample_env
               (sample_window (cs "/home/") None None []) sample_fs
               {| entry_name := cs "Banana"; row_icon := icon_folder |}))
     = cs "/home/Banana"
  /\ current_dir
       (fst (on_up_clicked sample_env
               (fst (on_row_activated sample_env
                       (sample_window (cs "/home/") None None []) sample_fs
                       {| entry_name := cs "Banana";
                          row_icon := icon_folder |}))
               sample_fs))
     = cs "/home"
  /\ cs "/home"
     <> current_dir (sample_window (cs "/home/") None None []).
Proof.
  split; [reflexivity|]. split; [reflexivity|]. split; [reflexivity|].
  discriminate.
Qed.

(** Navigation keeps the current directory in the form the amended C6
    asks for. *)
Lemma back_over_separators_stops (s : cstr) (base : nat) :
  back_over_separators s base = 0
  \/ G_IS_DIR_SEPARATOR (nth (back_over_separators s base) s NUL) = false.
Proof.
  induction base as [|b IH]; cbn [back_over_separators]; [now left|].
  destruct (G_IS_DIR_SEPARATOR (nth (S b) s NUL)) eqn:E; [exact IH|].
  right. exact E.
Qed.

Lemma back_over_separators_le (s : cstr) (base : nat) :
  back_over_separators s base <= base.
Proof.
  induction base as [|b IH]; cbn [back_over_separators]; [lia|].
  destruct (G_IS_DIR_SEPARATOR (nth (S b) s NUL)); lia.
Qed.

Lemma strrchr_lt (s : cstr) (c : ascii) (i : nat) :
  strrchr s c = Some i -> i < length s /\ nth i s NUL = c.
Proof.
  revert i. induction s as [|x r IH]; intros i; simpl; [discriminate|].
  destruct (strrchr r c) as [j|].
  - intros H; inversion H; subst. destruct (IH j eq_refl). split; [lia|auto].
  - destruct (Ascii.eqb_spec x c); [|discriminate].
    intros H; inversion H; subst. split; [lia|reflexivity].
Qed.

Lemma last_firstn_nth (s : cstr) (k : nat) (d : ascii) :
  k < length s -> last (firstn (S k) s) d = nth k s d.
Proof.
  revert s. induction k as [|k IH]; intros [|x r] H; simpl in H; try lia.
  - destruct r; reflexivity.
  - change (firstn (S (S k)) (x :: r)) with (x :: firstn (S k) r).
    destruct r as [|y r']; [simpl in H; lia|].
    change (last (x :: firstn (S k) (y :: r')) d)
      with (last (firstn (S k) (y :: r')) d).
    rewrite IH by (simpl in *; lia). reflexivity.
Qed.

Lemma g_path_get_dirname_navigator (p : cstr) :
  navigator_path (g_path_get_dirname p).
Proof.
  unfold g_path_get_dirname.
  destruct (strrchr p G_DIR_SEPARATOR) as [base|] eqn:E.
  - destruct (strrchr_lt _ _ _ E) as [Hlt Hnth].
    pose proof (back_over_separators_le p base) as Hle.
    destruct (back_over_separators_stops p base) as [H0|Hns].
    + rewrite H0. destruct p as [|c r]; [simpl in Hlt; lia|].
      destruct base as [|b].
      * simpl in Hnth. subst c. left. destruct r; reflexivity.
      * cbn. destruct (G_IS_DIR_SEPARATOR c) eqn:Ec.
        -- left. apply Ascii.eqb_eq in Ec. subst c. destruct r; reflexivity.
        -- right. split; [discriminate|].
           unfold has_trailing_separator. destruct r; exact Ec.
    + right. split.
      * destruct p; [simpl in Hlt; lia|discriminate].
      * unfold has_trailing_separator.
        change (1 + back_over_separators p base)
          with (S (back_over_separators p base)).
        rewrite last_firstn_nth by lia. exact Hns.
  - right. split; [discriminate|reflexivity].
Qed.

Lemma last_of_app (q name : cstr) (d : ascii) :
  name <> [] -> last (q ++ name) d = last name d.
Proof.
  intros Hne. induction q as [|x q' IH]; [reflexivity|].
  cbn [app]. destruct (q' ++ name) eqn:E.
  - apply app_eq_nil in E. tauto.
  - exact IH.
Qed.

Lemma g_build_filename_navigator_path (p name : cstr) :
  navigator_path p -> plain_name name ->
  navigator_path (g_build_filename [p; name]).
Proof.
  intros Hp Hn. rewrite (g_build_filename_navigator _ _ Hp Hn).
  pose proof (plain_name_no_trailing _ Hn) as Ht.
  destruct Hn as [Hne _]. unfold has_trailing_separator in Ht.
  assert (forall q, q ++ name <> [] /\ last (q ++ name) NUL = last name NUL)
    as Hq.
  { intros q. split; [|now apply last_of_app].
    intros E. apply app_eq_nil in E. tauto. }
  right. unfold has_trailing_separator.
  destruct (cstr_eq_dec p (cs "/")).
  - destruct (Hq p) as [H1 H2]. now rewrite H2.
  - rewrite app_assoc. destruct (Hq (p ++ [G_DIR_SEPARATOR])) as [H1 H2].
    now rewrite H2.
Qed.

Lemma on_row_activated_stays env w fs row :
  g_file_test env fs (g_build_filename [current_dir w; entry_name row])
              G_FILE_TEST_IS_DIR = false ->
  current_dir (fst (on_row_activated env w fs row)) = current_dir w.
Proof.
  intros H. unfold on_row_activated. rewrite H.
  destruct (g_file_get_contents env fs _); [reflexivity|].
  destruct (stat env fs _); reflexivity.
Qed.

(** Whatever the current directory was, after Go Up it is the root or
    has no trailing separator; activating a row with a plain name
    keeps it so. *)
Lemma on_up_clicked_navigator env w fs :
  navigator_path (current_dir (fst (on_up_clicked env w fs))).
Proof.
  rewrite on_up_clicked_current_dir. apply g_path_get_dirname_navigator.
Qed.

Lemma on_row_activated_navigator env w fs row :
  navigator_path (current_dir w) ->
  plain_name (entry_name row) ->
  navigator_path (current_dir (fst (on_row_activated env w fs row))).
Proof.
  intros Hp Hn.
  destruct (g_file_test env fs
              (g_build_filename [current_dir w; entry_name row])
              G_FILE_TEST_IS_DIR) eqn:E.
  - rewrite (on_row_activated_descends _ _ _ _ E).
    now apply g_build_filename_navigator_path.
  - now rewrite (on_row_activated_stays _ _ _ _ E).
Qed.

(** ** Making directories *)

Lemma lookup_app (a b : loc) :
  forall n,
    lookup (a ++ b) n =
      match lookup a n with
      | Some c => lookup b c
      | None => None
      end.
Proof.
  induction a as [|s r IH]; intros n; [reflexivity|].
  cbn [app lookup]. destruct n as [m c|es]; [reflexivity|].
  destruct (assoc s es); [apply IH|reflexivity].
Qed.

(** The parent of a directory is a directory. *)
Lemma is_dir_at_removelast (cur : loc) (n : node) :
  is_dir_at cur n = true -> is_dir_at (removelast cur) n = true.
Proof.
  destruct cur as [|x r] eqn:E; [auto|]. rewrite <- E.
  assert (cur <> []) as Hne by (subst; discriminate).
  rewrite (app_removelast_last x Hne) at 1.
  unfold is_dir_at. rewrite lookup_app.
  destruct (lookup (removelast cur) n) as [[m c|es]|];
    simpl; intros H; (discriminate H || reflexivity).
Qed.

(** An entry can always be put into a directory. *)
Lemma set_node_succeeds (s : cstr) (v : node) (cur : loc) :
  forall n,
    is_dir_at cur n = true -> exists n', set_node (cur ++ [s]) v n = Some n'.
Proof.
  induction cur as [|x r IH]; intros n H.
  - destruct n as [m c|es]; [discriminate|]. simpl. eauto.
  - unfold is_dir_at in H. cbn [lookup] in H.
    destruct n as [m c|es]; [discriminate|].
    destruct (assoc x es) as [c|] eqn:Ec; [|discriminate].
    destruct (IH c H) as [c' Hc'].
    cbn [app set_node]. rewrite Ec, Hc'.
    destruct (r ++ [s]) eqn:E; [|eauto].
    apply app_eq_nil in E. destruct E; discriminate.
Qed.

Lemma keeps_dirs_refl (n : node) : keeps_dirs n n.
Proof. intros q H; exact H. Qed.

Lemma keeps_dirs_trans (a b c : node) :
  keeps_dirs a b -> keeps_dirs b c -> keeps_dirs a c.
Proof. intros H1 H2 q H. apply H2, H1, H. Qed.

(** ** The components of a joined path *)

Lemma split_separator_nonempty (s : cstr) : split_separator s <> [].
Proof.
  destruct s as [|c r]; simpl; [discriminate|].
  destruct (G_IS_DIR_SEPARATOR c); [discriminate|].
  destruct (split_separator r); discriminate.
Qed.

Lemma split_separator_app (a b : cstr) :
  split_separator (a ++ G_DIR_SEPARATOR :: b)
  = split_separator a ++ split_separator b.
Proof.
  induction a as [|c r IH]; [reflexivity|].
  cbn [app split_separator]. rewrite IH.
  destruct (G_IS_DIR_SEPARATOR c); [reflexivity|].
  pose proof (split_separator_nonempty r) as Hne.
  destruct (split_separator r); [congruence|reflexivity].
Qed.

Lemma path_segments_app (a b : cstr) :
  path_segments (a ++ G_DIR_SEPARATOR :: b)
  = path_segments a ++ path_segments b.
Proof.
  unfold path_segments. now rewrite split_separator_app, filter_app.
Qed.

Lemma split_separator_plain (n : cstr) :
  Forall (fun c => G_IS_DIR_SEPARATOR c = false) n -> split_separator n = [n].
Proof.
  induction 1 as [|c r Hc _ IH]; [reflexivity|].
  cbn [split_separator]. now rewrite Hc, IH.
Qed.

Lemma path_segments_plain (n : cstr) : plain_name n -> path_segments n = [n].
Proof.
  intros [Hne Hall]. unfold path_segments.
  rewrite (split_separator_plain _ Hall). destruct n; [congruence|reflexivity].
Qed.






(** Walking on from a directory reached by a first part of the path. *)
Lemma path_walk_app (root : node) (l : loc) (rest : list cstr)
      (md md' : bool) :
  forall segs cur,
    path_walk root cur segs md = inr l ->
    is_dir_at l root = true ->
    path_walk root cur (segs ++ rest) md' = path_walk root l rest md'.
Proof.
  induction segs as [|s r IH]; intros cur Hw Hl.
  - inversion Hw; reflexivity.
  - cbn [app path_walk] in *.
    destruct (cstr_eq_dec s dot); [now apply IH|].
    destruct (cstr_eq_dec s dotdot); [now apply IH|].
    destruct (lookup (cur ++ [s]) root) as [[m c|es]|] eqn:El;
      try discriminate.
    + destruct r; [|discriminate]. destruct md; [discriminate|].
      inversion Hw; subst. unfold is_dir_at in Hl. rewrite El in Hl.
      discriminate.
    + now apply IH.
Qed.


Lemma resolve_inv env fs path l :
  resolve env fs path = inr l ->
  path <> []
  /\ is_dir_at (start_dir env path) fs = true
  /\ path_walk fs (start_dir env path) (path_segments path)
               (has_trailing_separator path) = inr l.
Proof.
  unfold resolve. destruct path as [|c r]; [discriminate|].
  destruct (is_dir_at _ fs); [|discriminate]. intros H.
  repeat split; auto. discriminate.
Qed.


(** ** Listing after a new entry *)






(** ** Creating *)


Example new_makes_ancestors :
  g_mkdir_with_parents sample_env sample_fs (cs "/home/a/b/c/")
  = (Dir [(cs "home",
           Dir [(cs "cherry.txt", File 1 (cs "red"));
                (cs "apple.txt", File 2 (cs "green"));
                (cs "Banana", Dir [(cs "peel.txt", File 3 [])]);
                (cs "a", Dir [(cs "b", Dir [(cs "c", Dir [])])])])],
     None).
Proof. reflexivity. Qed.

Example new_file_is_empty :
  g_file_set_contents sample_env sample_fs (cs "/home/new.txt") [] 0
  = inr (Dir [(cs "home",
               Dir [(cs "cherry.txt", File 1 (cs "red"));
                    (cs "apple.txt", File 2 (cs "green"));
                    (cs "Banana", Dir [(cs "peel.txt", File 3 [])]);
                    (cs "new.txt", File 1700000000 [])])]).
Proof. reflexivity. Qed.

Example new_backslash_directory :
  g_mkdir_with_parents sample_env sample_fs
    (g_build_filename [cs "/home"; cs "x\"])
  = (Dir [(cs "home",
           Dir [(cs "cherry.txt", File 1 (cs "red"));
                (cs "apple.txt", File 2 (cs "green"));
                (cs "Banana", Dir [(cs "peel.txt", File 3 [])]);
                (cs "x\", Dir [])])],
     None).
Proof. reflexivity. Qed.

Example new_directory_over_file :
  g_file_test sample_env sample_fs
    (g_build_filename [cs "/home"; cs "apple.txt/"]) G_FILE_TEST_EXISTS = false
  /\ g_mkdir_with_parents sample_env sample_fs
       (g_build_filename [cs "/home"; cs "apple.txt/"])
     = (sample_fs, Some ENOTDIR).
Proof. split; reflexivity. Qed.

(** ** Listing *)

Section SortFacts.
Variables A B : Type.
Variable cmp : A -> A -> Z.
Variable cmp' : B -> B -> Z.
Variable f : A -> B.
Hypothesis cmp_through_f : forall a b, cmp a b = cmp' (f a) (f b).

Lemma merge_cons_cons (a1 a2 : A) (r1 r2 : list A) :
  merge cmp (a1 :: r1) (a2 :: r2)
  = if (cmp a1 a2 <=? 0)%Z then a1 :: merge cmp r1 (a2 :: r2)
    else a2 :: merge cmp (a1 :: r1) r2.
Proof. reflexivity. Qed.

Lemma merge_nil_r (l : list A) : merge cmp l [] = l.
Proof. destruct l; reflexivity. Qed.

Lemma merge_permutation (l1 l2 : list A) :
  Permutation (merge cmp l1 l2) (l1 ++ l2).
Proof.
  revert l2. induction l1 as [|a1 r1 IH1]; intros l2;
    [destruct l2; reflexivity|].
  induction l2 as [|a2 r2 IH2].
  - rewrite merge_nil_r, app_nil_r. reflexivity.
  - rewrite merge_cons_cons. destruct (cmp a1 a2 <=? 0)%Z.
    + cbn [app]. apply perm_skip, IH1.
    + rewrite IH2. apply Permutation_middle.
Qed.

(** The sort only rearranges, whatever the comparison function and
    however much fuel it is given. *)
Lemma msort_fuel_permutation (fuel : nat) :
  forall l, Permutation (msort_fuel cmp fuel l) l.
Proof.
  induction fuel as [|k IH]; intros l; [reflexivity|].
  destruct l as [|x [|y r]]; try reflexivity.
  cbn [msort_fuel]. rewrite merge_permutation, !IH.
  now rewrite firstn_skipn.
Qed.

Lemma msort_permutation (l : list A) : Permutation (msort cmp l) l.
Proof. apply msort_fuel_permutation. Qed.

Lemma merge_map (l1 l2 : list A) :
  map f (merge cmp l1 l2) = merge cmp' (map f l1) (map f l2).
Proof.
  revert l2. induction l1 as [|a1 r1 IH1]; intros l2;
    [destruct l2; reflexivity|].
  induction l2 as [|a2 r2 IH2]; [reflexivity|].
  rewrite merge_cons_cons.
  change (merge cmp' (map f (a1 :: r1)) (map f (a2 :: r2)))
    with (if (cmp' (f a1) (f a2) <=? 0)%Z
          then f a1 :: merge cmp' (map f r1) (map f (a2 :: r2))
          else f a2 :: merge cmp' (map f (a1 :: r1)) (map f r2)).
  rewrite <- cmp_through_f. destruct (cmp a1 a2 <=? 0)%Z; cbn [map].
  - f_equal. apply IH1.
  - f_equal. exact IH2.
Qed.

Lemma msort_fuel_map (fuel : nat) :
  forall l, map f (msort_fuel cmp fuel l) = msort_fuel cmp' fuel (map f l).
Proof.
  induction fuel as [|k IH]; intros l; [reflexivity|].
  destruct l as [|x [|y r]]; try reflexivity.
  change (map f (x :: y :: r)) with (f x :: f y :: map f r).
  cbn [msort_fuel]. rewrite merge_map, !IH.
  change (f x :: f y :: map f r) with (map f (x :: y :: r)).
  now rewrite firstn_map, skipn_map, !length_map.
Qed.

Lemma msort_map (l : list A) : map f (msort cmp l) = msort cmp' (map f l).
Proof. unfold msort. now rewrite msort_fuel_map, length_map. Qed.
End SortFacts.

(** The fuel [msort] gives is enough: more fuel gives the same list. *)
Lemma msort_fuel_enough (A : Type) (cmp : A -> A -> Z) (f1 : nat) :
  forall f2 l,
    length l <= f1 -> length l <= f2 ->
    msort_fuel cmp f1 l = msort_fuel cmp f2 l.
Proof.
  induction f1 as [|a IH]; intros f2 l H1 H2.
  - destruct l; [destruct f2; reflexivity | simpl in H1; lia].
  - destruct f2 as [|b].
    + destruct l; [reflexivity | simpl in H2; lia].
    + destruct l as [|x [|y r]]; try reflexivity.
      cbn [msort_fuel].
      set (l := x :: y :: r) in *.
      assert (2 <= length l) as Hlen by (subst l; simpl; lia).
      assert (1 <= Nat.div (length l) 2 < length l) as Hhalf.
      { split; [apply Nat.div_le_lower_bound; lia
               | apply Nat.div_lt; lia]. }
      f_equal; apply IH; rewrite ?length_firstn, ?length_skipn; lia.
Qed.

Lemma msort_more_fuel (A : Type) (cmp : A -> A -> Z) (l : list A) (k : nat) :
  msort_fuel cmp (length l + k) l = msort cmp l.
Proof. unfold msort. apply msort_fuel_enough; lia. Qed.

Lemma strdup_all_chars env i names :
  map chars (strdup_all env i names) = names.
Proof.
  revert i. induction names as [|n r IH]; intros i; [reflexivity|].
  cbn. now rewrite IH.
Qed.

Lemma strdup_all_address env names :
  forall i,
    map address (strdup_all env i names)
    = map (heap env) (seq i (length names)).
Proof.
  induction names as [|n r IH]; intros i; [reflexivity|].
  cbn. now rewrite IH.
Qed.

Section SortOrder.
Variable A : Type.
Variable cmp : A -> A -> Z.
Hypothesis cmp_total : forall a b, (cmp a b > 0)%Z -> (cmp b a <= 0)%Z.

Lemma merge_head (a : A) (l1 l2 : list A) :
  HdRel (in_order cmp) a l1 -> HdRel (in_order cmp) a l2 ->
  HdRel (in_order cmp) a (merge cmp l1 l2).
Proof.
  intros H1 H2. destruct l1 as [|a1 r1]; [destruct l2; exact H2|].
  destruct l2 as [|a2 r2]; [exact H1|].
  change (merge cmp (a1 :: r1) (a2 :: r2))
    with (if (cmp a1 a2 <=? 0)%Z then a1 :: merge cmp r1 (a2 :: r2)
          else a2 :: merge cmp (a1 :: r1) r2).
  inversion H1; inversion H2; subst.
  destruct (cmp a1 a2 <=? 0)%Z; now constructor.
Qed.

Lemma merge_sorted (l1 : list A) :
  forall l2,
    Sorted (in_order cmp) l1 -> Sorted (in_order cmp) l2 ->
    Sorted (in_order cmp) (merge cmp l1 l2).
Proof.
  induction l1 as [|a1 r1 IH1]; intros l2 S1 S2; [destruct l2; exact S2|].
  induction l2 as [|a2 r2 IH2]; [exact S1|].
  change (merge cmp (a1 :: r1) (a2 :: r2))
    with (if (cmp a1 a2 <=? 0)%Z then a1 :: merge cmp r1 (a2 :: r2)
          else a2 :: merge cmp (a1 :: r1) r2).
  inversion S1; inversion S2; subst.
  destruct (cmp a1 a2 <=? 0)%Z eqn:E.
  - constructor; [now apply IH1|].
    apply merge_head; [assumption|]. constructor.
    unfold in_order. now apply Z.leb_le.
  - constructor; [now apply IH2|].
    apply merge_head; [|assumption]. constructor.
    apply cmp_total. apply Z.leb_gt in E. lia.
Qed.

(** With a comparison function that orders any two elements one way or
    the other, the sort puts each element before its successor. *)
Lemma msort_fuel_sorted (fuel : nat) :
  forall l, length l <= fuel -> Sorted (in_order cmp) (msort_fuel cmp fuel l).
Proof.
  induction fuel as [|k IH]; intros l Hl.
  - destruct l; [constructor|simpl in Hl; lia].
  - destruct l as [|x [|y r]]; [constructor|repeat constructor|].
    cbn [msort_fuel]. set (l := x :: y :: r) in *.
    assert (2 <= length l) as Hlen by (subst l; simpl; lia).
    assert (1 <= Nat.div (length l) 2 < length l) as Hhalf.
    { split; [apply Nat.div_le_lower_bound; lia | apply Nat.div_lt; lia]. }
    apply merge_sorted; apply IH;
      rewrite ?length_firstn, ?length_skipn; lia.
Qed.

Lemma msort_sorted (l : list A) : Sorted (in_order cmp) (msort cmp l).
Proof. apply msort_fuel_sorted. lia. Qed.
End SortOrder.

Lemma g_ascii_strcasecmp_swap (s1 : cstr) :
  forall s2, g_ascii_strcasecmp s2 s1 = (- g_ascii_strcasecmp s1 s2)%Z.
Proof.
  induction s1 as [|c1 r1 IH]; intros [|c2 r2]; cbn [g_ascii_strcasecmp];
    try lia.
  rewrite (Z.eqb_sym (TOLOWER c2) (TOLOWER c1)).
  destruct (TOLOWER c1 =? TOLOWER c2)%Z; [apply IH|lia].
Qed.

(** Handed the strings themselves, as [g_ptr_array_sort_values] does,
    the comparison function of [main.c] puts the names in
    case-insensitive order. *)
Lemma g_ptr_array_sort_values_sorted (pdata : list gchar_ptr) :
  Sorted (fun a b => (g_ascii_strcasecmp (chars a) (chars b) <= 0)%Z)
         (g_ptr_array_sort_values g_ascii_strcasecmp pdata).
Proof.
  unfold g_ptr_array_sort_values.
  apply (msort_sorted gchar_ptr
           (fun a b => g_ascii_strcasecmp (chars a) (chars b))).
  intros a b H. rewrite g_ascii_strcasecmp_swap. lia.
Qed.

(** What does hold of the listing: its rows are the names of the
    directory other than [.] and [..], each once per entry, in some
    order. *)
Lemma refresh_file_list_rows env w fs names :
  g_dir_read_names env fs (current_dir w) = Some names ->
  Permutation
    (map entry_name (listbox (fst (refresh_file_list env w fs))))
    (filter (fun name => negb (is_dot_entry name)) names).
Proof.
  intros H. unfold refresh_file_list. rewrite H. cbn [fst listbox].
  rewrite map_map.
  rewrite (map_ext _ chars) by reflexivity.
  unfold g_ptr_array_sort. rewrite msort_permutation.
  now rewrite strdup_all_chars.
Qed.


(** The order of the rows is the order in which the sort puts the
    addresses of the strings: it is settled by the heap and the number
    of names, whatever the names are. *)
Lemma g_ptr_array_sort_by_address env compare_func names :
  map address (g_ptr_array_sort compare_func (strdup_all env 0 names))
  = msort (fun a b => compare_func (c_str (le_bytes 8 a))
                                   (c_str (le_bytes 8 b)))
          (map (heap env) (seq 0 (length names))).
Proof.
  unfold g_ptr_array_sort.
  rewrite (msort_map gchar_ptr Z _
             (fun a b => compare_func (c_str (le_bytes 8 a))
                                      (c_str (le_bytes 8 b)))
             address) by reflexivity.
  now rewrite strdup_all_address.
Qed.


(** C1 (the code departs from it). /home holds cherry.txt, apple.txt
    and Banana, read in this order and copied to addresses 32 bytes
    apart.  [g_ptr_array_sort] hands [g_ascii_strcasecmp] the slots of
    the array, so the rows come out in the order of the bytes of the
    addresses: cherry.txt, apple.txt, Banana when the heap grows
    upwards, Banana, apple.txt, cherry.txt when it grows downwards.
    Comparing the names themselves would give apple.txt, Banana,
    cherry.txt. *)
Theorem listing_follows_addresses :
  map entry_name
      (listbox (fst (refresh_file_list sample_env
                       (sample_window (cs "/home") None None []) sample_fs)))
  = [cs "cherry.txt"; cs "apple.txt"; cs "Banana"]
  /\ map entry_name
       (listbox (fst (refresh_file_list downward_env
                        (sample_window (cs "/home") None None []) sample_fs)))
     = [cs "Banana"; cs "apple.txt"; cs "cherry.txt"]
  /\ map chars
       (g_ptr_array_sort_values g_ascii_strcasecmp
          (strdup_all sample_env 0
             [cs "cherry.txt"; cs "apple.txt"; cs "Banana"]))
     = [cs "apple.txt"; cs "Banana"; cs "cherry.txt"].
Proof. repeat split; vm_compute; reflexivity. Qed.

(** ** Deleting *)

Lemma g_file_delete_non_empty env fs path l e es :
  resolve env fs path = inr l ->
  lookup l fs = Some (Dir (e :: es)) ->
  exists err, g_file_delete env fs path = inl err.
Proof.
  intros Hr Hl. unfold g_file_delete. rewrite Hr, Hl.
  destruct (g_strcmp0_eq (last_segment path) dot); [eauto|].
  destruct (g_strcmp0_eq (last_segment path) dotdot); eauto.
Qed.

(** Delete on a row whose directory has entries: the confirmation, an
    error dialog, and nothing else. *)
Lemma on_delete_clicked_non_empty env w fs row l e es :
  gtk_list_box_get_selected_row w = Some row ->
  resolve env fs (g_build_filename [current_dir w; entry_name row]) = inr l ->
  lookup l fs = Some (Dir (e :: es)) ->
  exists err,
    on_delete_clicked env true w fs
    = (w, fs, [confirm_dialog (entry_name row);
               error_dialog "Delete Error" (msg_os err)]).
Proof.
  intros Hrow Hr Hl.
  destruct (g_file_delete_non_empty env fs _ l e es Hr Hl) as [err Hd].
  exists err. unfold on_delete_clicked. rewrite Hrow. cbn [negb].
  cbv iota. now rewrite Hd.
Qed.

(** C2 (the code departs from it). Banana in /home holds peel.txt.
    Delete on its row, confirmed, ends in the error dialog of
    [g_file_delete] (directory not empty); Banana and peel.txt are
    still there and a fresh listing of /home still shows Banana. *)
Theorem delete_keeps_non_empty_directory :
  on_delete_clicked sample_env true
    (sample_window (cs "/home") (Some 2) None []) sample_fs
  = (sample_window (cs "/home") (Some 2) None [], sample_fs,
     [confirm_dialog (cs "Banana");
      error_dialog "Delete Error" (msg_os ENOTEMPTY)])
  /\ lookup [cs "home"; cs "Banana"; cs "peel.txt"] sample_fs
     = Some (File 3 [])
  /\ In (cs "Banana")
        (map entry_name
           (listbox (fst (refresh_file_list sample_env
                            (sample_window (cs "/home") (Some 2) None [])
                            sample_fs)))).
Proof.
  split; [reflexivity|]. split; [reflexivity|].
  vm_compute. right; right; left; reflexivity.
Qed.

Example delete_removes_empty_directory :
  g_file_delete sample_env
    (Dir [(cs "home", Dir [(cs "old", Dir []); (cs "f", File 1 [])])])
    (cs "/home/old")
  = inr (Dir [(cs "home", Dir [(cs "f", File 1 [])])]).
Proof. reflexivity. Qed.

(** * Further properties of the handlers *)

(** ** Paths of the entries of the current directory *)


Lemma walk_parent_app (root : node) (l : loc) (md : bool) :
  forall segs cur (s : cstr) (rest : list cstr),
    path_walk root cur segs md = inr l ->
    is_dir_at l root = true ->
    walk_parent root cur (segs ++ s :: rest) = walk_parent root l (s :: rest).
Proof.
  induction segs as [|x r IH]; intros cur s rest Hw Hl.
  - inversion Hw; reflexivity.
  - cbn [app path_walk] in Hw.
    change (walk_parent root cur ((x :: r) ++ s :: rest))
      with (walk_parent root cur (x :: (r ++ s :: rest))).
    cbn [walk_parent].
    destruct (r ++ s :: rest) as [|y t] eqn:E.
    { apply app_eq_nil in E. destruct E; discriminate. }
    rewrite <- E.
    destruct (cstr_eq_dec x dot); [now apply IH|].
    destruct (cstr_eq_dec x dotdot); [now apply IH|].
    destruct (lookup (cur ++ [x]) root) as [[m c|es]|] eqn:El;
      try discriminate.
    + destruct r; [|discriminate]. destruct md; [discriminate|].
      inversion Hw; subst. unfold is_dir_at in Hl. rewrite El in Hl.
      discriminate.
    + now apply IH.
Qed.


(** ** Going up, repeatedly *)

Lemma strrchr_of_head (c : ascii) (r : cstr) :
  exists base, strrchr (c :: r) c = Some base.
Proof.
  cbn [strrchr]. destruct (strrchr r c); [eauto|].
  rewrite Ascii.eqb_refl. eauto.
Qed.

(** The parent of an absolute path is absolute, and shorter unless the
    path is the root. *)
Lemma g_path_get_dirname_shorter (p : cstr) :
  g_path_is_absolute p = true ->
  g_path_is_absolute (g_path_get_dirname p) = true
  /\ (p = cs "/" \/ length (g_path_get_dirname p) < length p).
Proof.
  destruct p as [|c r]; [discriminate|]. cbn [g_path_is_absolute].
  intros Hc. apply Ascii.eqb_eq in Hc. subst c.
  destruct (strrchr_of_head G_DIR_SEPARATOR r) as [base Hb].
  unfold g_path_get_dirname. rewrite Hb.
  destruct (strrchr_lt _ _ _ Hb) as [Hlt Hnth].
  pose proof (back_over_separators_le (G_DIR_SEPARATOR :: r) base) as Hle.
  split; [reflexivity|].
  rewrite length_firstn.
  destruct (back_over_separators_stops (G_DIR_SEPARATOR :: r) base)
    as [H0|Hns].
  - rewrite H0. destruct r as [|c' r']; [now left|].
    right. cbn [length]. lia.
  - right.
    assert (back_over_separators (G_DIR_SEPARATOR :: r) base <> base) as Hd.
    { intros E. rewrite E, Hnth in Hns. discriminate Hns. }
    lia.
Qed.

Lemma dirname_iter_root (n : nat) :
  forall p,
    g_path_is_absolute p = true ->
    length p <= S n ->
    Nat.iter n g_path_get_dirname p = cs "/".
Proof.
  induction n as [|k IH]; intros p Ha Hl.
  - destruct p as [|c [|c' r]]; try discriminate; [|simpl in Hl; lia].
    cbn in Ha. apply Ascii.eqb_eq in Ha. now subst c.
  - rewrite Nat.iter_succ_r.
    destruct (g_path_get_dirname_shorter p Ha) as [Ha' [->|Hs]].
    + apply IH; [reflexivity|simpl; lia].
    + apply IH; [exact Ha'|lia].
Qed.

Lemma on_up_clicked_iter env fs (n : nat) :
  forall w,
    current_dir (Nat.iter n (fun x => fst (on_up_clicked env x fs)) w)
    = Nat.iter n g_path_get_dirname (current_dir w).
Proof.
  induction n as [|k IH]; intros w; [reflexivity|].
  rewrite !Nat.iter_succ. now rewrite on_up_clicked_current_dir, IH.
Qed.

(** From an absolute current directory, as many Go Up clicks as the
    path has characters (less one) lead to the root, whatever the file
    system holds. *)
Theorem up_reaches_root env fs w (n : nat) :
  g_path_is_absolute (current_dir w) = true ->
  length (current_dir w) <= S n ->
  current_dir (Nat.iter n (fun x => fst (on_up_clicked env x fs)) w) = cs "/".
Proof.
  intros Ha Hl. rewrite on_up_clicked_iter. now apply dirname_iter_root.
Qed.

Lemma up_reaches_root_witness :
  g_path_is_absolute (cs "/home/Banana") = true
  /\ current_dir
       (Nat.iter 11 (fun x => fst (on_up_clicked sample_env x sample_fs))
          (sample_window (cs "/home/Banana") None None []))
     = cs "/".
Proof.
  split; [reflexivity|].
  apply (up_reaches_root sample_env sample_fs
           (sample_window (cs "/home/Banana") None None []) 11).
  - reflexivity.
  - simpl. lia.
Defined.

(** ** What every handler keeps *)

Lemma refresh_file_list_settled env w fs :
  settled (fst (refresh_file_list env w fs)).
Proof.
  unfold refresh_file_list, settled.
  destruct (g_dir_read_names env fs (current_dir w)); split; reflexivity.
Qed.

Lemma on_row_activated_settled env w fs row :
  settled w -> settled (fst (on_row_activated env w fs row)).
Proof.
  intros [Hl Hs]. unfold on_row_activated.
  destruct (g_file_test env fs _ G_FILE_TEST_IS_DIR).
  - pose proof (refresh_file_list_settled env
                  (set_current_dir
                     (set_selected_file_path w
                        (Some (g_build_filename
                                 [current_dir w; entry_name row])))
                     (g_build_filename [current_dir w; entry_name row]))
                  fs) as [R1 R2].
    destruct (refresh_file_list env _ fs) as [w3 shown].
    split; [exact R1|reflexivity].
  - destruct (g_file_get_contents env fs _); [split; [exact Hl|reflexivity]|].
    destruct (stat env fs _); split; (exact Hl || reflexivity).
Qed.

(** Save leaves the row it re-activates a file, so it does not
    navigate. *)
Lemma on_save_clicked_current_dir env w fs :
  current_dir (fst (fst (on_save_clicked env w fs))) = current_dir w.
Proof.
  unfold on_save_clicked.
  destruct (gtk_list_box_get_selected_row w) as [row|]; [|reflexivity].
  destruct (g_file_test env fs _ G_FILE_TEST_IS_DIR); [reflexivity|].
  destruct (g_file_set_contents env fs _ (textview w) (-1))
    as [e|fs'] eqn:Hset; [reflexivity|].
  pose proof (get_after_set _ _ _ _ _ _ Hset) as Hget.
  pose proof (on_row_activated_stays env w fs' row
                (g_file_get_contents_not_dir _ _ _ _ Hget)) as Hst.
  destruct (on_row_activated env w fs' row) as [w1 shown]. exact Hst.
Qed.

(** The path label and the cleared selection path survive every
    handler: if the label shows the current directory before an event,
    it does so after it. *)
Theorem handlers_keep_settled env w fs :
  settled w ->
  settled (fst (refresh_file_list env w fs))
  /\ (forall row, settled (fst (on_row_activated env w fs row)))
  /\ settled (fst (fst (on_new_clicked env w fs)))
  /\ settled (fst (fst (on_save_clicked env w fs)))
  /\ (forall yes, settled (fst (fst (on_delete_clicked env yes w fs))))
  /\ settled (fst (fst (on_rename_clicked env w fs)))
  /\ settled (fst (on_up_clicked env w fs)).
Proof.
  intros Hw.
  assert (forall fs' t,
            settled (gtk_entry_set_text (fst (refresh_file_list env w fs')) t))
    as Hentry.
  { intros fs' t. destruct (refresh_file_list_settled env w fs') as [A B].
    split; [exact A|exact B]. }
  split; [apply refresh_file_list_settled|].
  split; [intros row; now apply on_row_activated_settled|].
  split; [|split; [|split; [|split]]].
  - unfold on_new_clicked.
    destruct (entryName w) as [[|c r]|]; try exact Hw.
    destruct (g_file_test env fs _ G_FILE_TEST_EXISTS); [exact Hw|].
    destruct (g_str_has_suffix _ _ || g_str_has_suffix _ _).
    + destruct (g_mkdir_with_parents env fs _) as [fs' [e|]]; [exact Hw|].
      specialize (Hentry fs' []).
      destruct (refresh_file_list env w fs'). exact Hentry.
    + destruct (g_file_set_contents env fs _ [] 0) as [e|fs']; [exact Hw|].
      specialize (Hentry fs' []).
      destruct (refresh_file_list env w fs'). exact Hentry.
  - unfold on_save_clicked.
    destruct (gtk_list_box_get_selected_row w) as [row|]; [|exact Hw].
    destruct (g_file_test env fs _ G_FILE_TEST_IS_DIR); [exact Hw|].
    destruct (g_file_set_contents env fs _ (textview w) (-1)) as [e|fs'];
      [exact Hw|].
    pose proof (on_row_activated_settled env w fs' row Hw) as Hs.
    destruct (on_row_activated env w fs' row). exact Hs.
  - intros yes. unfold on_delete_clicked.
    destruct (gtk_list_box_get_selected_row w) as [row|]; [|exact Hw].
    destruct yes; [|exact Hw]. cbn [negb].
    destruct (g_file_delete env fs _) as [e|fs']; [exact Hw|].
    pose proof (refresh_file_list_settled env w fs') as Hs.
    destruct (refresh_file_list env w fs'). exact Hs.
  - unfold on_rename_clicked.
    destruct (entryName w) as [[|c r]|]; try exact Hw.
    destruct (gtk_list_box_get_selected_row w) as [row|]; [|exact Hw].
    destruct (g_file_test env fs _ G_FILE_TEST_EXISTS); [exact Hw|].
    destruct (rename env fs _ _) as [e|fs']; [exact Hw|].
    specialize (Hentry fs' []).
    destruct (refresh_file_list env w fs'). exact Hentry.
  - unfold on_up_clicked.
    destruct (g_strcmp0_eq _ _); [exact Hw|].
    apply refresh_file_list_settled.
Qed.

Lemma handlers_keep_settled_witness :
  settled (sample_window (cs "/home") (Some 0) (Some (cs "plum.txt")) [])
  /\ settled
       (fst (fst (on_rename_clicked sample_env
                    (sample_window (cs "/home") (Some 0)
                       (Some (cs "plum.txt")) [])
                    sample_fs)))
  /\ settled
       (fst (on_row_activated sample_env
               (sample_window (cs "/home") (Some 0) (Some (cs "plum.txt")) [])
               sample_fs
               {| entry_name := cs "Banana"; row_icon := icon_folder |})).
Proof.
  assert (settled (sample_window (cs "/home") (Some 0)
                     (Some (cs "plum.txt")) [])) as Hw
    by (split; reflexivity).
  split; [exact Hw|].
  destruct (handlers_keep_settled sample_env
              (sample_window (cs "/home") (Some 0) (Some (cs "plum.txt")) [])
              sample_fs Hw) as (_ & Hact & _ & _ & _ & Hren & _).
  split; [exact Hren | apply Hact].
Defined.

(** New, Save, Delete and Rename never move the navigator: the current
    directory after them is the one before, whether they succeed or
    fail. *)
Theorem editing_keeps_current_dir env w fs :
  current_dir (fst (fst (on_new_clicked env w fs))) = current_dir w
  /\ current_dir (fst (fst (on_save_clicked env w fs))) = current_dir w
  /\ (forall yes,
        current_dir (fst (fst (on_delete_clicked env yes w fs)))
        = current_dir w)
  /\ current_dir (fst (fst (on_rename_clicked env w fs))) = current_dir w.
Proof.
  assert (forall fs' t,
            current_dir
              (gtk_entry_set_text (fst (refresh_file_list env w fs')) t)
            = current_dir w) as Hentry.
  { intros fs' t. apply refresh_file_list_current_dir. }
  split; [|split; [apply on_save_clicked_current_dir|split]].
  - unfold on_new_clicked.
    destruct (entryName w) as [[|c r]|]; try reflexivity.
    destruct (g_file_test env fs _ G_FILE_TEST_EXISTS); [reflexivity|].
    destruct (g_str_has_suffix _ _ || g_str_has_suffix _ _).
    + destruct (g_mkdir_with_parents env fs _) as [fs' [e|]]; [reflexivity|].
      specialize (Hentry fs' []).
      destruct (refresh_file_list env w fs'). exact Hentry.
    + destruct (g_file_set_contents env fs _ [] 0) as [e|fs']; [reflexivity|].
      specialize (Hentry fs' []).
      destruct (refresh_file_list env w fs'). exact Hentry.
  - intros yes. unfold on_delete_clicked.
    destruct (gtk_list_box_get_selected_row w) as [row|]; [|reflexivity].
    destruct yes; [|reflexivity]. cbn [negb].
    destruct (g_file_delete env fs _) as [e|fs']; [reflexivity|].
    pose proof (refresh_file_list_current_dir env w fs') as Hs.
    destruct (refresh_file_list env w fs'). exact Hs.
  - unfold on_rename_clicked.
    destruct (entryName w) as [[|c r]|]; try reflexivity.
    destruct (gtk_list_box_get_selected_row w) as [row|]; [|reflexivity].
    destruct (g_file_test env fs _ G_FILE_TEST_EXISTS); [reflexivity|].
    destruct (rename env fs _ _) as [e|fs']; [reflexivity|].
    specialize (Hentry fs' []).
    destruct (refresh_file_list env w fs'). exact Hentry.
Qed.

(** ** What a refresh shows *)

Lemma filter_twice (A : Type) (f : A -> bool) (l : list A) :
  filter f (filter f l) = filter f l.
Proof.
  induction l as [|x r IH]; [reflexivity|]. cbn [filter].
  destruct (f x) eqn:E; [|exact IH]. cbn [filter]. now rewrite E, IH.
Qed.

Lemma g_dir_read_names_no_dots env fs path names :
  g_dir_read_names env fs path = Some names ->
  filter (fun n => negb (is_dot_entry n)) names = names.
Proof.
  unfold g_dir_read_names.
  destruct (resolve env fs path) as [e|l]; [discriminate|].
  destruct (lookup l fs) as [[m c|es]|]; try discriminate.
  intros H; inversion H; subst. apply filter_twice.
Qed.

(** A refresh empties the editor, resets the status label, drops the
    selection and keeps the current directory and the typed name.
    When the current directory can be read, its rows are the names
    that [g_dir_read_name] reports, each once per entry, in some order,
    and no dialog comes up; when it cannot, the list is empty and the
    Navigation Error dialog is the only one. *)
Theorem refresh_shows_directory env w fs :
  let (w', shown) := refresh_file_list env w fs in
  textview w' = []
  /\ statusLabel w' = status_none_selected
  /\ selected_row w' = None
  /\ current_dir w' = current_dir w
  /\ entryName w' = entryName w
  /\ match g_dir_read_names env fs (current_dir w) with
     | Some names =>
         shown = [] /\ Permutation (map entry_name (listbox w')) names
     | None =>
         shown = [show_error_dialog "Navigation Error"
                    "Cannot open directory: Permission denied or not found."]
         /\ listbox w' = []
     end.
Proof.
  pose proof (refresh_file_list_rows env w fs) as Hrows.
  unfold refresh_file_list in *.
  destruct (g_dir_read_names env fs (current_dir w)) as [names|] eqn:E.
  - repeat (split; [reflexivity|]).
    rewrite <- (g_dir_read_names_no_dots _ _ _ _ E) at 2.
    now apply Hrows.
  - repeat (split; [reflexivity|]). reflexivity.
Qed.




(** ** Opening a file *)



(** ** New, for a plain name *)








(** ** What New and Save leave alone *)

(** Putting a node where no directory was leaves every other regular
    file as it is. *)
Lemma set_node_other_file (t : loc) (v : node) :
  forall n n' q m c,
    set_node t v n = Some n' ->
    is_dir_at t n = false ->
    q <> t ->
    lookup q n = Some (File m c) ->
    lookup q n' = Some (File m c).
Proof.
  induction t as [|s r IH]; intros n n' q m c; simpl; [discriminate|].
  destruct n as [m0 c0|es]; [discriminate|].
  destruct q as [|x q']; [discriminate|].
  destruct r as [|u r'].
  - intros H Ht Hq Hl. inversion H; subst; clear H.
    unfold is_dir_at in Ht. cbn [lookup] in *.
    destruct (cstr_eq_dec x s) as [E|E].
    + subst x. destruct (assoc s es) as [c1|]; [|discriminate].
      destruct q' as [|y q'']; [congruence|].
      destruct c1; [discriminate Hl|discriminate Ht].
    + now rewrite assoc_set_other.
  - destruct (assoc s es) as [c1|] eqn:Ec; [|discriminate].
    destruct (set_node (u :: r') v c1) as [c1'|] eqn:E; [|discriminate].
    intros H Ht Hq Hl. inversion H; subst; clear H.
    unfold is_dir_at in Ht. cbn [lookup] in *.
    destruct (cstr_eq_dec x s) as [Ex|Ex].
    + subst x. rewrite assoc_set_same. rewrite Ec in Hl, Ht.
      apply (IH c1 c1' q' m c E); [exact Ht| congruence | exact Hl].
    + now rewrite assoc_set_other.
Qed.

Lemma set_node_keeps_files (t : loc) (v : node) (n n' : node) :
  set_node t v n = Some n' ->
  lookup t n = None ->
  keeps_files n n'.
Proof.
  intros Hs Hn q m c Hq.
  apply set_node_other_file with t v n; auto.
  - unfold is_dir_at. now rewrite Hn.
  - intros ->. congruence.
Qed.

Lemma keeps_files_refl (n : node) : keeps_files n n.
Proof. intros q m c H; exact H. Qed.

Lemma keeps_files_trans (a b c : node) :
  keeps_files a b -> keeps_files b c -> keeps_files a c.
Proof. intros H1 H2 q m x H. apply H2, H1, H. Qed.

(** The walk that makes directories loses nothing, even when it
    stops at a regular file. *)
Lemma mkdir_walk_keeps :
  forall segs root cur,
    is_dir_at cur root = true ->
    keeps_dirs root (fst (mkdir_walk root cur segs))
    /\ keeps_files root (fst (mkdir_walk root cur segs)).
Proof.
  induction segs as [|s rest IH]; intros root cur Hcur.
  - split; [apply keeps_dirs_refl|apply keeps_files_refl].
  - cbn [mkdir_walk].
    destruct (cstr_eq_dec s dot); [now apply IH|].
    destruct (cstr_eq_dec s dotdot); [now apply IH, is_dir_at_removelast|].
    destruct (lookup (cur ++ [s]) root) as [[m c|es]|] eqn:El.
    + split; [apply keeps_dirs_refl|apply keeps_files_refl].
    + apply IH. now apply lookup_dir_is_dir_at with es.
    + destruct (too_long s);
        [split; [apply keeps_dirs_refl|apply keeps_files_refl]|].
      destruct (set_node_succeeds s (Dir []) cur root Hcur) as [root1 Hset].
      rewrite Hset.
      assert (keeps_dirs root root1) as K1.
      { intros q. apply set_node_keeps_dirs with (cur ++ [s]) (Dir []);
          [exact Hset|]. unfold is_dir_at. now rewrite El. }
      assert (is_dir_at (cur ++ [s]) root1 = true) as Hnew.
      { unfold is_dir_at. now rewrite (lookup_set_node_same _ _ _ _ Hset). }
      destruct (IH root1 (cur ++ [s]) Hnew) as [Kd Kf]. split.
      * now apply keeps_dirs_trans with root1.
      * apply keeps_files_trans with root1; [|exact Kf].
        now apply set_node_keeps_files with (cur ++ [s]) (Dir []).
Qed.

Lemma g_mkdir_with_parents_keeps env fs pathname :
  keeps_dirs fs (fst (g_mkdir_with_parents env fs pathname))
  /\ keeps_files fs (fst (g_mkdir_with_parents env fs pathname)).
Proof.
  unfold g_mkdir_with_parents.
  destruct pathname as [|c r] eqn:Ep;
    [split; [apply keeps_dirs_refl|apply keeps_files_refl]|].
  rewrite <- Ep.
  destruct (is_dir_at (start_dir env pathname) fs) eqn:Es.
  - now apply mkdir_walk_keeps.
  - split; [apply keeps_dirs_refl|apply keeps_files_refl].
Qed.

(** New never removes or alters what exists: after it, whether it
    reports success or an error, every directory is still a directory
    and every regular file still has its bytes and modification
    time. *)
Theorem new_keeps_everything env w fs :
  keeps_dirs fs (snd (fst (on_new_clicked env w fs)))
  /\ keeps_files fs (snd (fst (on_new_clicked env w fs))).
Proof.
  assert (keeps_dirs fs fs /\ keeps_files fs fs) as Hsame
    by (split; [apply keeps_dirs_refl|apply keeps_files_refl]).
  unfold on_new_clicked.
  destruct (entryName w) as [[|c r]|]; try exact Hsame.
  destruct (g_file_test env fs _ G_FILE_TEST_EXISTS) eqn:Hex; [exact Hsame|].
  destruct (g_str_has_suffix _ _ || g_str_has_suffix _ _).
  - pose proof (g_mkdir_with_parents_keeps env fs
                  (g_build_filename [current_dir w; c :: r])) as K.
    destruct (g_mkdir_with_parents env fs _) as [fs' [e|]]; [exact K|].
    destruct (refresh_file_list env w fs'). exact K.
  - destruct (g_file_set_contents env fs _ [] 0) as [e|fs'] eqn:Hset;
      [exact Hsame|].
    destruct (refresh_file_list env w fs'). cbn [fst snd].
    destruct (g_file_set_contents_inv _ _ _ _ _ _ Hset)
      as (p & s & Hp & Ht & Hd & Hs).
    assert (lookup (p ++ [s]) fs = None) as Hnone.
    { unfold g_file_test in Hex. rewrite (resolve_of_parent _ _ _ _ _ Hp) in Hex.
      rewrite Ht in Hex.
      destruct (lookup (p ++ [s]) fs) as [[m0 c0|es]|];
        [discriminate|discriminate|reflexivity]. }
    split.
    + intros q. apply set_node_keeps_dirs with (p ++ [s])
                        (File (now env) (written [] 0)); assumption.
    + now apply set_node_keeps_files with (p ++ [s])
                  (File (now env) (written [] 0)).
Qed.

(** Save changes one file at most: every directory stays a directory,
    and every regular file other than the one the path of the selected
    row resolves to keeps its bytes and modification time. *)
Theorem save_changes_one_file env w fs row :
  gtk_list_box_get_selected_row w = Some row ->
  keeps_dirs fs (snd (fst (on_save_clicked env w fs)))
  /\ forall q m c,
       lookup q fs = Some (File m c) ->
       resolve env fs (g_build_filename [current_dir w; entry_name row])
       <> inr q ->
       lookup q (snd (fst (on_save_clicked env w fs))) = Some (File m c).
Proof.
  intros Hrow. unfold on_save_clicked. rewrite Hrow.
  destruct (g_file_test env fs _ G_FILE_TEST_IS_DIR);
    [split; [apply keeps_dirs_refl|auto]|].
  destruct (g_file_set_contents env fs _ (textview w) (-1))
    as [e|fs'] eqn:Hset; [split; [apply keeps_dirs_refl|auto]|].
  destruct (on_row_activated env w fs' row). cbn [fst snd].
  destruct (g_file_set_contents_inv _ _ _ _ _ _ Hset)
    as (p & s & Hp & Ht & Hd & Hs).
  split.
  - intros q. now apply set_node_keeps_dirs with (p ++ [s])
                (File (now env) (written (textview w) (-1))).
  - intros q m c Hq Hne.
    apply set_node_other_file with (p ++ [s])
            (File (now env) (written (textview w) (-1))) fs; auto.
    intros ->. apply Hne.
    rewrite (resolve_of_parent _ _ _ _ _ Hp), Hq, Ht. reflexivity.
Qed.

Lemma save_changes_one_file_witness :
  gtk_list_box_get_selected_row
    (sample_window (cs "/home") (Some 0) None (cs "hello"))
  = Some {| entry_name := cs "cherry.txt"; row_icon := icon_text_x_generic |}
  /\ lookup [cs "home"; cs "cherry.txt"]
       (snd (fst (on_save_clicked sample_env
                    (sample_window (cs "/home") (Some 0) None (cs "hello"))
                    sample_fs)))
     = Some (File 1700000000 (cs "hello"))
  /\ lookup [cs "home"; cs "apple.txt"]
       (snd (fst (on_save_clicked sample_env
                    (sample_window (cs "/home") (Some 0) None (cs "hello"))
                    sample_fs)))
     = Some (File 2 (cs "green")).
Proof.
  split; [reflexivity|]. split; [reflexivity|].
  destruct (save_changes_one_file sample_env
              (sample_window (cs "/home") (Some 0) None (cs "hello"))
              sample_fs
              {| entry_name := cs "cherry.txt";
                 row_icon := icon_text_x_generic |} eq_refl) as [_ H].
  apply H; [reflexivity|discriminate].
Defined.

(** ** Taking an entry out of a directory *)














(** ** Delete *)

(** Delete does nothing to the file system or the widgets unless a row
    is selected and the confirmation is answered with Yes. *)
Theorem delete_needs_selection_and_yes env yes w fs :
  gtk_list_box_get_selected_row w = None \/ yes = false ->
  fst (on_delete_clicked env yes w fs) = (w, fs).
Proof.
  unfold on_delete_clicked.
  intros [H|H]; rewrite H; [reflexivity|].
  destruct (gtk_list_box_get_selected_row w); reflexivity.
Qed.

Lemma delete_needs_selection_and_yes_witness :
  fst (on_delete_clicked sample_env false
         (sample_window (cs "/home") (Some 0) None []) sample_fs)
  = (sample_window (cs "/home") (Some 0) None [], sample_fs).
Proof.
  apply (delete_needs_selection_and_yes sample_env false
           (sample_window (cs "/home") (Some 0) None []) sample_fs).
  right; reflexivity.
Defined.



(** ** Rename *)





(** ** Activating a row *)

(** Activating the row of a directory that can be read: the current
    directory and the path label become the path of the row, the list
    shows the names of that directory, the editor is empty and the
    status label says that a directory is viewed. *)
Theorem descend_shows_child env w fs row names :
  g_dir_read_names env fs
    (g_build_filename [current_dir w; entry_name row]) = Some names ->
  let (w', shown) := on_row_activated env w fs row in
  current_dir w' = g_build_filename [current_dir w; entry_name row]
  /\ pathLabel w' = g_build_filename [current_dir w; entry_name row]
  /\ Permutation (map entry_name (listbox w')) names
  /\ selected_row w' = None
  /\ textview w' = []
  /\ statusLabel w' = status_directory_view
  /\ shown = [].
Proof.
  intros Hnames.
  set (path := g_build_filename [current_dir w; entry_name row]) in *.
  assert (g_file_test env fs path G_FILE_TEST_IS_DIR = true) as Hdir.
  { unfold g_dir_read_names in Hnames. unfold g_file_test, is_dir_at.
    destruct (resolve env fs path) as [e|t]; [discriminate|].
    destruct (lookup t fs) as [[m c|es]|]; try discriminate. reflexivity. }
  unfold on_row_activated. fold path. rewrite Hdir.
  pose proof (refresh_file_list_rows env
                (set_current_dir (set_selected_file_path w (Some path)) path)
                fs names Hnames) as Hrows.
  rewrite (g_dir_read_names_no_dots _ _ _ _ Hnames) in Hrows.
  unfold refresh_file_list in *. cbn [current_dir set_current_dir] in *.
  rewrite Hnames in *. cbn in Hrows |- *.
  repeat (split; [reflexivity|]).
  split; [exact Hrows|]. repeat (split; [reflexivity|]). reflexivity.
Qed.

Lemma descend_shows_child_witness :
  g_dir_read_names sample_env sample_fs
    (g_build_filename [cs "/home"; cs "Banana"]) = Some [cs "peel.txt"]
  /\ let (w', shown) :=
       on_row_activated sample_env
         (sample_window (cs "/home") None None (cs "old text")) sample_fs
         {| entry_name := cs "Banana"; row_icon := icon_folder |} in
     current_dir w' = cs "/home/Banana"
     /\ pathLabel w' = cs "/home/Banana"
     /\ Permutation (map entry_name (listbox w')) [cs "peel.txt"]
     /\ selected_row w' = None
     /\ textview w' = []
     /\ statusLabel w' = status_directory_view
     /\ shown = [].
Proof.
  split; [reflexivity|].
  apply (descend_shows_child sample_env
           (sample_window (cs "/home") None None (cs "old text")) sample_fs
           {| entry_name := cs "Banana"; row_icon := icon_folder |}
           [cs "peel.txt"]).
  reflexivity.
Defined.



(** Navigation keeps the current directory in one form: after Go Up it
    is the root or does not end in a separator, and from such a
    current directory activating a row with a plain name leaves it
    so. *)
Theorem navigation_keeps_path_form env w fs row :
  navigator_path (current_dir w) ->
  plain_name (entry_name row) ->
  navigator_path (current_dir (fst (on_row_activated env w fs row)))
  /\ navigator_path (current_dir (fst (on_up_clicked env w fs)))
  /\ navigator_path
       (current_dir
          (fst (on_up_clicked env (fst (on_row_activated env w fs row)) fs))).
Proof.
  intros Hp Hn. split; [now apply on_row_activated_navigator|].
  split; apply on_up_clicked_navigator.
Qed.

Lemma navigation_keeps_path_form_witness :
  navigator_path (cs "/home")
  /\ navigator_path
       (current_dir
          (fst (on_row_activated sample_env
                  (sample_window (cs "/home") None None []) sample_fs
                  {| entry_name := cs "Banana"; row_icon := icon_folder |}))).
Proof.
  assert (navigator_path (cs "/home")) as Hp
    by (right; split; [discriminate|reflexivity]).
  split; [exact Hp|].
  apply (navigation_keeps_path_form sample_env
           (sample_window (cs "/home") None None []) sample_fs
           {| entry_name := cs "Banana"; row_icon := icon_folder |} Hp).
  split; [discriminate|repeat constructor].
Defined.

(** ** Save, for a row of the current directory *)



(** ** New, for a name with a directory in front *)

(** The second round of [g_build_filename] for an element that
    neither starts nor ends with a separator. *)
Lemma build_step_relative (st : build_state) (c : ascii) (r : cstr) :
  G_IS_DIR_SEPARATOR c = false ->
  has_trailing_separator (c :: r) = false ->
  have_leading st = true ->
  build_step st (c :: r) =
    {| result := result st
                 ++ (if is_first st then [] else [G_DIR_SEPARATOR]) ++ c :: r;
       is_first := false; have_leading := true;
       single_element := None; last_trailing := Some [] |}.
Proof.
  intros Hc Ht Hl. unfold build_step. rewrite Hl.
  rewrite (skip_separators_head _ _ Hc), (strip_trailing_none _ Ht).
  rewrite (trailing_none _ Ht). reflexivity.
Qed.

Lemma g_build_filename_relative (p : cstr) (c : ascii) (r : cstr) :
  navigator_path p ->
  G_IS_DIR_SEPARATOR c = false ->
  has_trailing_separator (c :: r) = false ->
  g_build_filename [p; c :: r] =
    if cstr_eq_dec p (cs "/") then p ++ c :: r
    else p ++ G_DIR_SEPARATOR :: c :: r.
Proof.
  intros [->|[Hne Ht]] Hc Hr.
  - unfold g_build_filename. cbn [fold_left].
    rewrite build_step_relative by (assumption || reflexivity).
    cbn. now rewrite app_nil_r.
  - destruct (cstr_eq_dec p (cs "/")) as [->|_]; [discriminate Ht|].
    unfold g_build_filename. cbn [fold_left].
    rewrite (build_step_first _ Hne Ht).
    rewrite build_step_relative by (assumption || reflexivity).
    cbn. now rewrite app_nil_r.
Qed.

(** The path New builds for [a/b]: what it starts from and its
    components. *)
Lemma nested_path env (p a b : cstr) :
  navigator_path p -> plain_name a -> plain_name b ->
  let path := g_build_filename [p; a ++ G_DIR_SEPARATOR :: b] in
  path <> []
  /\ start_dir env path = start_dir env p
  /\ path_segments path = path_segments p ++ [a; b].
Proof.
  intros Hp Ha Hb.
  destruct (plain_name_head _ Ha) as (c & r & -> & Hc).
  assert (has_trailing_separator ((c :: r) ++ G_DIR_SEPARATOR :: b) = false)
    as Ht.
  { unfold has_trailing_separator.
    replace ((c :: r) ++ G_DIR_SEPARATOR :: b)
      with (((c :: r) ++ [G_DIR_SEPARATOR]) ++ b)
      by (now rewrite <- app_assoc).
    rewrite last_of_app by apply Hb.
    exact (plain_name_no_trailing _ Hb). }
  assert (path_segments ((c :: r) ++ G_DIR_SEPARATOR :: b) = [c :: r; b])
    as Hseg.
  { now rewrite path_segments_app, (path_segments_plain _ Ha),
      (path_segments_plain _ Hb). }
  cbv zeta. change ((c :: r) ++ G_DIR_SEPARATOR :: b)
    with (c :: (r ++ G_DIR_SEPARATOR :: b)) in *.
  rewrite (g_build_filename_relative _ _ _ Hp Hc Ht).
  destruct (cstr_eq_dec p (cs "/")) as [->|D].
  - split; [discriminate|]. split; [reflexivity|].
    change (cs "/" ++ c :: r ++ G_DIR_SEPARATOR :: b)
      with ([] ++ G_DIR_SEPARATOR :: c :: r ++ G_DIR_SEPARATOR :: b).
    now rewrite path_segments_app, Hseg.
  - destruct Hp as [->|[Hp _]]; [congruence|].
    split; [destruct p; [congruence|discriminate]|]. split.
    + unfold start_dir. destruct p; [congruence|reflexivity].
    + now rewrite path_segments_app, Hseg.
Qed.

(** New makes missing directories only for a directory: with [a/b]
    typed, where the current directory has no [a], the name is not
    taken for that of a directory and the path of the temporary file
    is one the kernel takes, the file is not created, the dialog
    is Create File Error with the error of the system for [a] (ENOENT,
    for every [a] that a directory can hold), and nothing changes. *)
Theorem new_file_needs_directory env w fs (a b : cstr) (l : loc) :
  entryName w = Some (a ++ G_DIR_SEPARATOR :: b) ->
  plain_name a -> is_dot_entry a = false -> plain_name b ->
  g_str_has_suffix (a ++ G_DIR_SEPARATOR :: b) (cs "/")
  || g_str_has_suffix (a ++ G_DIR_SEPARATOR :: b) (cs "\") = false ->
  fits_path (g_build_filename [current_dir w; a ++ G_DIR_SEPARATOR :: b]
               ++ tmp_suffix) = true ->
  navigator_path (current_dir w) ->
  resolve env fs (current_dir w) = inr l ->
  is_dir_at l fs = true ->
  lookup (l ++ [a]) fs = None ->
  on_new_clicked env w fs
  = (w, fs, [error_dialog "Create File Error" (msg_os (not_found a))]).
Proof.
  intros He Ha Hd Hb Hsuf _ Hp Hr Hl Hnone.
  destruct (nested_path env _ a b Hp Ha Hb) as (Hne & Hs & Hseg).
  destruct (resolve_inv _ _ _ _ Hr) as (_ & Hstart & Hw).
  unfold is_dot_entry, g_strcmp0_eq in Hd.
  destruct (cstr_eq_dec a dot) as [|Hnd]; [discriminate|].
  destruct (cstr_eq_dec a dotdot) as [|Hndd]; [discriminate|].
  unfold on_new_clicked. rewrite He.
  destruct (a ++ G_DIR_SEPARATOR :: b) as [|x t] eqn:Et.
  { destruct a; discriminate. }
  rewrite <- Et in *. rewrite Hsuf.
  assert (resolve env fs (g_build_filename
                            [current_dir w; a ++ G_DIR_SEPARATOR :: b])
          = inl (not_found a)) as Hres.
  { unfold resolve.
    destruct (g_build_filename [current_dir w; a ++ G_DIR_SEPARATOR :: b])
      as [|y u] eqn:Eb; [congruence|].
    rewrite <- Eb in *. rewrite Hs, Hstart, Hseg.
    rewrite (path_walk_app fs l [a; b] _ _ _ _ Hw Hl). cbn [path_walk].
    destruct (cstr_eq_dec a dot); [congruence|].
    destruct (cstr_eq_dec a dotdot); [congruence|].
    now rewrite Hnone. }
  assert (resolve_parent env fs (g_build_filename
                                   [current_dir w; a ++ G_DIR_SEPARATOR :: b])
          = inl (not_found a)) as Hpar.
  { unfold resolve_parent.
    destruct (g_build_filename [current_dir w; a ++ G_DIR_SEPARATOR :: b])
      as [|y u] eqn:Eb; [congruence|].
    rewrite <- Eb in *. rewrite Hs, Hstart, Hseg.
    rewrite (walk_parent_app fs l _ _ _ a [b] Hw Hl). cbn [walk_parent].
    destruct (cstr_eq_dec a dot); [congruence|].
    destruct (cstr_eq_dec a dotdot); [congruence|].
    now rewrite Hnone. }
  unfold g_file_test, g_file_set_contents. rewrite Hres, Hpar.
  unfold not_found. destruct (too_long a); reflexivity.
Qed.

Lemma new_file_needs_directory_witness :
  on_new_clicked sample_env
    (sample_window (cs "/home") None (Some (cs "drafts/todo.txt")) [])
    sample_fs
  = (sample_window (cs "/home") None (Some (cs "drafts/todo.txt")) [],
     sample_fs, [error_dialog "Create File Error" (msg_os ENOENT)]).
Proof.
  apply (new_file_needs_directory sample_env
           (sample_window (cs "/home") None (Some (cs "drafts/todo.txt")) [])
           sample_fs (cs "drafts") (cs "todo.txt") [cs "home"]).
  - reflexivity.
  - split; [discriminate|repeat constructor].
  - reflexivity.
  - split; [discriminate|repeat constructor].
  - reflexivity.
  - reflexivity.
  - right. split; [discriminate|reflexivity].
  - reflexivity.
  - reflexivity.
  - reflexivity.
Defined.

(** ** Into a directory and back *)

Lemma build_is_longer (p n : cstr) :
  navigator_path p -> plain_name n -> g_build_filename [p; n] <> p.
Proof.
  intros Hp Hn E. rewrite (g_build_filename_navigator _ _ Hp Hn) in E.
  apply (f_equal (@length ascii)) in E.
  destruct (cstr_eq_dec p (cs "/")); rewrite ?length_app in E;
    destruct Hn as [Hne _]; destruct n; try congruence; simpl in E; lia.
Qed.

(** Activating the row of a directory and then Go Up shows the
    directory one started from again: its path in the label, its
    names in the list, no dialog, nothing selected and an empty
    editor. *)
Theorem into_directory_and_back env w fs row names :
  navigator_path (current_dir w) ->
  plain_name (entry_name row) ->
  g_file_test env fs (g_build_filename [current_dir w; entry_name row])
              G_FILE_TEST_IS_DIR = true ->
  g_dir_read_names env fs (current_dir w) = Some names ->
  let (w', shown) :=
    on_up_clicked env (fst (on_row_activated env w fs row)) fs in
  current_dir w' = current_dir w
  /\ pathLabel w' = current_dir w
  /\ Permutation (map entry_name (listbox w')) names
  /\ selected_row w' = None
  /\ textview w' = []
  /\ shown = [].
Proof.
  intros Hp Hn Hd Hnames.
  pose proof (on_row_activated_descends _ _ _ _ Hd) as Hcur.
  set (w1 := fst (on_row_activated env w fs row)) in *.
  unfold on_up_clicked. rewrite Hcur, (dirname_of_build _ _ Hp Hn).
  unfold g_strcmp0_eq.
  destruct (cstr_eq_dec _ _) as [E|_].
  { symmetry in E. now apply build_is_longer in E. }
  pose proof (refresh_file_list_rows env
                (set_current_dir w1 (current_dir w)) fs names Hnames)
    as Hrows.
  rewrite (g_dir_read_names_no_dots _ _ _ _ Hnames) in Hrows.
  unfold refresh_file_list in *. cbn [current_dir set_current_dir] in *.
  rewrite Hnames in *. cbn in Hrows |- *.
  repeat (split; [reflexivity|]).
  split; [exact Hrows|]. repeat (split; [reflexivity|]). reflexivity.
Qed.

Lemma into_directory_and_back_witness :
  let (w', shown) :=
    on_up_clicked sample_env
      (fst (on_row_activated sample_env
              (sample_window (cs "/home") None None (cs "old text"))
              sample_fs
              {| entry_name := cs "Banana"; row_icon := icon_folder |}))
      sample_fs in
  current_dir w' = cs "/home"
  /\ pathLabel w' = cs "/home"
  /\ Permutation (map entry_name (listbox w'))
       [cs "cherry.txt"; cs "apple.txt"; cs "Banana"]
  /\ selected_row w' = None
  /\ textview w' = []
  /\ shown = [].
Proof.
  apply (into_directory_and_back sample_env
           (sample_window (cs "/home") None None (cs "old text")) sample_fs
           {| entry_name := cs "Banana"; row_icon := icon_folder |}
           [cs "cherry.txt"; cs "apple.txt"; cs "Banana"]).
  - right. split; [discriminate|reflexivity].
  - split; [discriminate|repeat constructor].
  - reflexivity.
  - reflexivity.
Defined.

(** ** Names that exist *)







(** ** Paths built from any name *)














(** ** Walks over names without [.] and [..] *)






(** ** Creating, in full *)





